(** * ping-monitor: the outage detector, its event sink and the prober

    A shallow embedding of [ping_monitor.py] and [regenerate_report.py].

    - Python integers are [Z]; the thresholds and the streak counters are
      unbounded integers, as in the source.
    - A naive [datetime] is the number of microseconds it lies after a fixed
      origin ([Z]); a [timedelta] is a difference of two of those, and
      [total_seconds] divides it by 10^6.  Floating point values (latencies,
      durations) are idealised as rationals ([Q]).
    - The text produced by [strftime("%Y-%m-%d %H:%M:%S")] names a whole
      second; it is modelled by the number of that second.
    - Exceptions are explicit: a computation that may raise returns [py A].
    - The two dictionaries of [monitor] are [gmap]s keyed by target; the
      dictionary [target_stats] of the report is an association list, since
      the report lists its keys in insertion order. *)

From Stdlib Require Import ZArith QArith Qabs List Bool Lia DecimalString.
From Stdlib Require Import Qround Permutation Sorted.
From stdpp Require Import gmap strings.

Import ListNotations.
Local Open Scope Z_scope.

(** ** Time *)

Module Clock.

(** A naive [datetime], in microseconds. *)
Definition datetime := Z.

(** [timedelta.total_seconds()]. *)
Definition total_seconds (delta_us : Z) : Q := delta_us # 1000000.

(** [dt.strftime("%Y-%m-%d %H:%M:%S")]: the microsecond field is dropped. *)
Definition strftime_seconds (dt : datetime) : Z := dt / 1000000.

(** Successive readings of [datetime.now()] that never step back. *)
Fixpoint nondecreasing (readings : list datetime) : Prop :=
  match readings with
  | [] => True
  | r :: rest => Forall (fun r' => r <= r') rest /\ nondecreasing rest
  end.

End Clock.

(** ** The event sink and the report *)

Module Sink.

(** The arguments of one call [save_downtime_event(target, start_time,
    end_time, duration)]. *)
Record OutageEvent := mkOutageEvent {
  ev_target : string;
  ev_start : Clock.datetime;
  ev_end : Clock.datetime;
  ev_duration : Q
}.

(** One entry of [downtime_events.json]: the dictionary [new_event]. *)
Record StoredEvent := mkStoredEvent {
  target : string;
  start : Z;
  end_ : Z;
  duration_s : Q
}.

Definition new_event (e : OutageEvent) : StoredEvent :=
  {| target := ev_target e;
     start := Clock.strftime_seconds (ev_start e);
     end_ := Clock.strftime_seconds (ev_end e);
     duration_s := ev_duration e |}.

(** What [open(filename)] followed by [json.load] can meet. *)
Inductive json_file :=
| Absent
| Unreadable
| Stored (events : list StoredEvent).

(** [{'count': ..., 'total_duration': ...}] *)
Record Stats := mkStats { count : Z; total_duration : Q }.

(** The chart data computed by [generate_html_report]. *)
Record Report := mkReport {
  total_events : Z;
  chart_labels : list string;
  chart_counts : list Z;
  chart_durations : list Q
}.

(** The two files, and whether each can be opened for writing. *)
Record Files := mkFiles {
  downtime_events_json : json_file;
  json_writable : bool;
  downtime_report_html : option Report;
  html_writable : bool
}.

(** [target_stats[t]] for a dictionary kept in insertion order. *)
Fixpoint stats_get (t : string) (d : list (string * Stats)) : option Stats :=
  match d with
  | [] => None
  | (k, v) :: rest => if String.eqb k t then Some v else stats_get t rest
  end.

(** Assignment to a key that is present: the key keeps its position. *)
Fixpoint stats_set (t : string) (v : Stats) (d : list (string * Stats))
  : list (string * Stats) :=
  match d with
  | [] => [(t, v)]
  | (k, v0) :: rest =>
      if String.eqb k t then (k, v) :: rest else (k, v0) :: stats_set t v rest
  end.

(** One round of the loop [for e in events] that fills [target_stats]. *)
Definition stats_add (d : list (string * Stats)) (e : StoredEvent)
  : list (string * Stats) :=
  let d1 :=
    match stats_get (target e) d with
    | None => d ++ [(target e, mkStats 0 0)]
    | Some _ => d
    end in
  match stats_get (target e) d1 with
  | None => d1
  | Some s =>
      let s1 := mkStats (count s + 1) (total_duration s) in
      let d2 := stats_set (target e) s1 d1 in
      stats_set (target e)
        (mkStats (count s1) (total_duration s1 + duration_s e)%Q) d2
  end.

Definition target_stats (events : list StoredEvent) : list (string * Stats) :=
  fold_left stats_add events [].

(** [round(x, 1)] on the exact value [x] of the float: to the nearest
    tenth, ties to the even tenth.  Floats are idealised as rationals
    here: a decimal such as 0.35 is the value of no float (the nearest
    one lies below it and rounds to 0.3), and durations are added without
    the rounding of float addition. *)
Definition round1 (x : Q) : Q :=
  let n := Qnum x * 10 in
  let d := Zpos (Qden x) in
  let q := n / d in
  let r := n mod d in
  let up :=
    match 2 * r ?= d with
    | Lt => false
    | Gt => true
    | Eq => Z.odd q
    end in
  (if up then q + 1 else q) # 10.

(** The aggregate part of [generate_html_report]; the cards, the hourly
    timeline and the markup around them are left out. *)
Definition report_of (events : list StoredEvent) : Report :=
  let stats := target_stats events in
  let labels := map fst stats in
  {| total_events := Z.of_nat (length events);
     chart_labels := labels;
     chart_counts :=
       map (fun t => match stats_get t stats with
                     | Some s => count s | None => 0 end) labels;
     chart_durations :=
       map (fun t => match stats_get t stats with
                     | Some s => round1 (total_duration s) | None => 0%Q end)
         labels |}.

Definition generate_html_report (events : list StoredEvent) (fs : Files) : Files :=
  if html_writable fs
  then {| downtime_events_json := downtime_events_json fs;
          json_writable := json_writable fs;
          downtime_report_html := Some (report_of events);
          html_writable := html_writable fs |}
  else fs.

Definition save_downtime_event (e : OutageEvent) (fs : Files) : Files :=
  let events :=
    match downtime_events_json fs with
    | Stored evs => evs
    | Absent | Unreadable => []
    end in
  let events := events ++ [new_event e] in
  let fs1 :=
    if json_writable fs
    then {| downtime_events_json := Stored events;
            json_writable := json_writable fs;
            downtime_report_html := downtime_report_html fs;
            html_writable := html_writable fs |}
    else fs in
  generate_html_report events fs1.

(** [regenerate_report.regenerate]. *)
Definition regenerate (fs : Files) : Files :=
  match downtime_events_json fs with
  | Absent => fs
  | Unreadable => fs
  | Stored events => generate_html_report events fs
  end.

(** The events of one target, in the order of the list: what the entry
    of that target in [target_stats] is meant to sum up. *)
Definition events_of (t : string) (events : list StoredEvent)
  : list StoredEvent :=
  List.filter (fun e => String.eqb (target e) t) events.

End Sink.

(** ** The outage detector *)

Module Detector.
Import Sink.

(** [class TargetState] *)
Record TargetState := mkTargetState {
  fail_streak : Z;
  success_streak : Z;
  outage : bool;
  outage_start : option Clock.datetime
}.

(** [TargetState()] *)
Definition TargetState_init : TargetState :=
  {| fail_streak := 0; success_streak := 0; outage := false; outage_start := None |}.

(** The keyword arguments [loss_threshold] and
    [recovery_success_threshold] of [monitor]. *)
Record Config := mkConfig {
  loss_threshold : Z;
  recovery_success_threshold : Z
}.

(** [monitor(TARGETS)] leaves both at their defaults. *)
Definition default_config : Config :=
  {| loss_threshold := 3; recovery_success_threshold := 11 |}.

(** The pair [(ok, latency)] returned by [ping_once]. *)
Definition ProbeResult : Type := bool * option Q.

(** The two messages [monitor] logs. *)
Inductive LogRecord :=
| Voltou (t : string) (at_ : Clock.datetime) (duration : Q)
| Indisponivel (t : string) (at_ : Clock.datetime) (streak : Z).

(** What one round of the loop [for t, res in zip(targets, results)] does:
    the state it leaves, the sample it appends to the history of [t], the
    call of [save_downtime_event] and the log record, if any. *)
Record Outcome := mkOutcome {
  new_state : TargetState;
  sample : option Q;
  saved_event : option OutageEvent;
  logged : option LogRecord
}.

(** The body of that loop.  [None] stands for the [TypeError] of
    [now - st.outage_start] when [outage_start] is [None].  The call of
    [save_downtime_event] is taken to return. *)
Definition update_target (cfg : Config) (t : string) (now : Clock.datetime)
    (res : ProbeResult) (st : TargetState) : option Outcome :=
  let '(ok, latency) := res in
  if ok then
    let latency := match latency with None => 1%Q | Some l => l end in
    let success_streak1 := success_streak st + 1 in
    let fail_streak1 := 0 in
    if outage st && (recovery_success_threshold cfg <=? success_streak1) then
      match outage_start st with
      | None => None
      | Some started =>
          let duration := Clock.total_seconds (now - started) in
          Some {| new_state :=
                    {| fail_streak := fail_streak1;
                       success_streak := 0;
                       outage := false;
                       outage_start := None |};
                  sample := Some latency;
                  saved_event := Some (mkOutageEvent t started now duration);
                  logged := Some (Voltou t now duration) |}
      end
    else
      Some {| new_state :=
                {| fail_streak := fail_streak1;
                   success_streak := success_streak1;
                   outage := outage st;
                   outage_start := outage_start st |};
              sample := Some latency;
              saved_event := None;
              logged := None |}
  else
    let fail_streak1 := fail_streak st + 1 in
    let success_streak1 := 0 in
    if negb (outage st) && (loss_threshold cfg <=? fail_streak1) then
      Some {| new_state :=
                {| fail_streak := fail_streak1;
                   success_streak := success_streak1;
                   outage := true;
                   outage_start := Some now |};
              sample := None;
              saved_event := None;
              logged := Some (Indisponivel t now fail_streak1) |}
    else
      Some {| new_state :=
                {| fail_streak := fail_streak1;
                   success_streak := success_streak1;
                   outage := outage st;
                   outage_start := outage_start st |};
              sample := None;
              saved_event := None;
              logged := None |}.

(** [deque(maxlen=...).append]: the oldest sample leaves a full deque. *)
Definition deque_append {A} (maxlen : nat) (d : list A) (x : A) : list A :=
  let d1 := d ++ [x] in
  skipn (length d1 - maxlen) d1.

(** [max(30, cols - 28)] *)
Definition display_width (cols : Z) : nat := Z.to_nat (Z.max 30 (cols - 28)).

Definition opt_list {A} (o : option A) : list A :=
  match o with Some a => [a] | None => [] end.

(** *** One target followed through the ticks *)

(** One tick as one target sees it: the reading of [datetime.now()] and
    its own probe result. *)
Record Tick := mkTick { now : Clock.datetime; res : ProbeResult }.

Definition ok (tk : Tick) : bool := fst (res tk).
Definition latency (tk : Tick) : option Q := snd (res tk).

(** The state of one target with its history, the events handed to the
    sink for it and the records logged for it, oldest first. *)
Record Track := mkTrack {
  state : TargetState;
  history : list (option Q);
  saved : list OutageEvent;
  logs : list LogRecord
}.

Definition Track_init : Track :=
  {| state := TargetState_init; history := []; saved := []; logs := [] |}.

Definition apply_outcome (width : nat) (o : Outcome) (w : Track) : Track :=
  {| state := new_state o;
     history := deque_append width (history w) (sample o);
     saved := saved w ++ opt_list (saved_event o);
     logs := logs w ++ opt_list (logged o) |}.

Definition process_result (cfg : Config) (width : nat) (t : string)
    (tk : Tick) (w : Track) : option Track :=
  match update_target cfg t (now tk) (res tk) (state w) with
  | None => None
  | Some o => Some (apply_outcome width o w)
  end.

Fixpoint run (cfg : Config) (width : nat) (t : string)
    (ticks : list Tick) (w : Track) : option Track :=
  match ticks with
  | [] => Some w
  | tk :: rest =>
      match process_result cfg width t tk w with
      | None => None
      | Some w1 => run cfg width t rest w1
      end
  end.

(** *** Streaks read off the outcomes alone *)

Fixpoint leading (b : bool) (l : list bool) : nat :=
  match l with
  | x :: rest => if Bool.eqb x b then S (leading b rest) else O
  | [] => O
  end.

(** How many probes at the end of [oks] failed in a row. *)
Definition consecutive_failures (oks : list bool) : Z :=
  Z.of_nat (leading false (rev oks)).

(** How many probes at the end of [oks] succeeded in a row. *)
Definition consecutive_successes (oks : list bool) : Z :=
  Z.of_nat (leading true (rev oks)).

(** The length of the longest run of failures anywhere in [oks]. *)
Fixpoint longest_failure_run_from (cur : nat) (oks : list bool) : nat :=
  match oks with
  | [] => cur
  | true :: rest => Nat.max cur (longest_failure_run_from O rest)
  | false :: rest => longest_failure_run_from (S cur) rest
  end.

Definition longest_failure_run (oks : list bool) : nat :=
  longest_failure_run_from O oks.

(** *** All targets at once *)

(** The dictionaries [states] and [histories] of [monitor], with the
    calls of [save_downtime_event] and the log, oldest first. *)
Record Monitor := mkMonitor {
  states : gmap string TargetState;
  histories : gmap string (list (option Q));
  sink : list OutageEvent;
  journal : list LogRecord
}.

(** The two dictionary comprehensions at the start of [monitor]. *)
Definition Monitor_init (targets : list string) : Monitor :=
  {| states := list_to_map (map (fun t => (t, TargetState_init)) targets);
     histories := list_to_map (map (fun t => (t, @nil (option Q))) targets);
     sink := [];
     journal := [] |}.

(** One round of [for t, res in zip(targets, results)]; [None] is an
    exception that leaves [monitor] ([KeyError] or [TypeError]). *)
Definition monitor_update (cfg : Config) (width : nat) (now : Clock.datetime)
    (m : Monitor) (tr : string * ProbeResult) : option Monitor :=
  let '(t, res) := tr in
  match states m !! t, histories m !! t with
  | Some st, Some h =>
      match update_target cfg t now res st with
      | None => None
      | Some o =>
          Some {| states := <[t := new_state o]> (states m);
                  histories := <[t := deque_append width h (sample o)]> (histories m);
                  sink := sink m ++ opt_list (saved_event o);
                  journal := journal m ++ opt_list (logged o) |}
      end
  | _, _ => None
  end.

(** The loop [for t, res in ...] over the pairs still to come. *)
Definition monitor_loop (cfg : Config) (width : nat) (now : Clock.datetime)
    (pairs : list (string * ProbeResult)) (acc : option Monitor)
  : option Monitor :=
  fold_left
    (fun acc tr => match acc with
                   | None => None
                   | Some m1 => monitor_update cfg width now m1 tr
                   end)
    pairs acc.

(** One pass of [while True], from the gathered [results] on. *)
Definition monitor_tick (cfg : Config) (width : nat) (targets : list string)
    (now : Clock.datetime) (results : list ProbeResult) (m : Monitor)
  : option Monitor :=
  monitor_loop cfg width now (combine targets results) (Some m).

(** *** The states the detector reaches *)

(** What the proofs below maintain along a run from [TargetState_init];
    [oks] are the outcomes seen so far, oldest first. *)
Record reached (cfg : Config) (oks : list bool) (st : TargetState) : Prop := {
  reached_fail : fail_streak st = consecutive_failures oks;
  reached_success_down :
    outage st = true -> success_streak st = consecutive_successes oks;
  reached_success_nonneg : 0 <= success_streak st;
  reached_up_below :
    0 < loss_threshold cfg -> outage st = false ->
    fail_streak st < loss_threshold cfg;
  reached_down_below :
    0 < recovery_success_threshold cfg -> outage st = true ->
    success_streak st < recovery_success_threshold cfg;
  reached_start_down : outage st = true -> exists s, outage_start st = Some s;
  reached_start_up : outage st = false -> outage_start st = None;
  reached_exclusive : fail_streak st = 0 \/ success_streak st = 0
}.

End Detector.

(** ** The prober *)

Module Prober.

(** What a [raise] carries: an instance of [Exception], or one of the
    exceptions that derive from [BaseException] only. *)
Inductive exn :=
| Exception (name : string)
| CancelledError
| KeyboardInterrupt.

(** Whether the clause [except Exception] handles it. *)
Definition is_Exception (e : exn) : bool :=
  match e with
  | Exception _ => true
  | CancelledError | KeyboardInterrupt => false
  end.

Inductive py (A : Type) :=
| Return (a : A)
| Raise (e : exn).
Arguments Return {A} a.
Arguments Raise {A} e.

Definition bind {A B} (m : py A) (k : A -> py B) : py B :=
  match m with
  | Return a => k a
  | Raise e => Raise e
  end.

(** [try: body / except Exception: handler] *)
Definition try_except {A} (body : py A) (handler : py A) : py A :=
  match body with
  | Return a => Return a
  | Raise e => if is_Exception e then handler else Raise e
  end.

Notation "'let!' x ':=' m 'in' k" := (bind m (fun x => k))
  (at level 10, x name, m at level 100, k at level 200).

(** The operating system and the library calls [ping_once] relies on.
    A child process is named by a number. *)
Record Host := mkHost {
  is_win : bool;
  ip_address : string -> py unit;
  create_subprocess_exec : list string -> py nat;
  communicate : nat -> py (option (list Byte.byte) * Z);
  decode_ignore : list Byte.byte -> string;
  re_search_latency : string -> option string;
  float : string -> py Q
}.

(** [str] of an integer. *)
Definition str (z : Z) : string := NilZero.string_of_int (Z.to_int z).

(** [val.replace(",", ".")] *)
Fixpoint replace_comma (s : string) : string :=
  match s with
  | EmptyString => EmptyString
  | String c rest =>
      String (if Ascii.eqb c (Ascii.ascii_of_nat 44) then Ascii.ascii_of_nat 46 else c)
        (replace_comma rest)
  end.

Definition _extract_latency_ms (h : Host) (output_text : string) : py (option Q) :=
  try_except
    (match re_search_latency h output_text with
     | Some group2 =>
         let! v := float h (replace_comma group2) in
         Return (Some v)
     | None => Return None
     end)
    (Return None).

(** The command line built before the [try] of [ping_once]. *)
Definition ping_command (h : Host) (is_ip : bool) (target : string)
    (timeout_ms : Z) : list string :=
  let timeout_ms := if is_ip then timeout_ms else Z.max timeout_ms 2000 in
  if is_win h
  then ["ping"; "-n"; "1"; "-w"; str timeout_ms; "-4"; target]%string
  else
    let seconds := Z.max 1 (timeout_ms / 1000) in
    ["ping"; "-c"; "1"; "-W"; str seconds; target]%string.

(** Whether [ipaddress.ip_address(target)] accepts the target. *)
Definition literal_address (h : Host) (target : string) : py bool :=
  try_except (let! accepted := ip_address h target in Return true)
    (Return false).

(** The statements inside the [try] of [ping_once]. *)
Definition attempt (h : Host) (cmd : list string) : py (bool * option Q) :=
  let! proc := create_subprocess_exec h cmd in
  let! out_rc := communicate h proc in
  let ok := snd out_rc =? 0 in
  let text :=
    decode_ignore h (match fst out_rc with Some b => b | None => [] end) in
  let! latency := (if ok then _extract_latency_ms h text else Return None) in
  Return (ok, latency).

Definition ping_once (h : Host) (target : string) (timeout_ms : Z)
  : py (bool * option Q) :=
  let! is_ip := literal_address h target in
  try_except
    (attempt h (ping_command h is_ip target timeout_ms))
    (Return (false, None)).

End Prober.

(** ** Sample inputs *)

Module Scenarios.
Import Detector Prober.

Definition failure_at (at_ : Clock.datetime) : Tick := mkTick at_ (false, None).

Definition success_at (at_ : Clock.datetime) : Tick :=
  mkTick at_ (true, Some (20 # 1)).

(** One of [TARGETS]. *)
Definition dns : string := "8.8.8.8".

Definition second : Z := 1000000.

(** Two failures, one per second. *)
Definition two_failures : list Tick :=
  map failure_at [1 * second; 2 * second].

(** Four failures, one per second. *)
Definition four_failures : list Tick :=
  map failure_at [1 * second; 2 * second; 3 * second; 4 * second].

(** Ten successes, from the fifth second on. *)
Definition ten_successes : list Tick :=
  map success_at
    [5 * second; 6 * second; 7 * second; 8 * second; 9 * second;
     10 * second; 11 * second; 12 * second; 13 * second; 14 * second].

(** fail, fail, fail, fail, then eleven successes. *)
Definition outage_and_recovery : list Tick :=
  four_failures ++ ten_successes ++ [success_at (15 * second)].

(** fail, fail, success, fail, fail. *)
Definition two_short_runs : list Tick :=
  [failure_at (1 * second); failure_at (2 * second); success_at (3 * second);
   failure_at (4 * second); failure_at (5 * second)].

(** Ticks a little more than a second apart: three failures from 0.9 s
    on, then eleven successes, the last one at 14.1 s. *)
Definition drifting_ticks : list Tick :=
  map failure_at [900000; 1900000; 2900000] ++
  map success_at
    [4000000; 5010000; 6020000; 7030000; 8040000; 9050000; 10060000;
     11070000; 12080000; 13090000; 14100000].

(** The wall clock is set back by an hour during the outage. *)
Definition clock_set_back : list Tick :=
  map failure_at [3601 * second; 3602 * second; 3603 * second] ++
  map success_at
    [4 * second; 5 * second; 6 * second; 7 * second; 8 * second; 9 * second;
     10 * second; 11 * second; 12 * second; 13 * second; 14 * second].

(** A host on which no [ping] can be started. *)
Definition host_without_ping : Host :=
  {| is_win := false;
     ip_address := fun s =>
       if String.eqb s dns then Return tt else Raise (Exception "ValueError");
     create_subprocess_exec := fun _ => Raise (Exception "FileNotFoundError");
     communicate := fun _ => Return (None, 0);
     decode_ignore := fun _ => EmptyString;
     re_search_latency := fun _ => None;
     float := fun _ => Raise (Exception "ValueError") |}.

(** A host on which the wait for the child is cancelled. *)
Definition host_cancelled : Host :=
  {| is_win := false;
     ip_address := fun _ => Return tt;
     create_subprocess_exec := fun _ => Return 1%nat;
     communicate := fun _ => Raise CancelledError;
     decode_ignore := fun _ => EmptyString;
     re_search_latency := fun _ => None;
     float := fun _ => Raise (Exception "ValueError") |}.

(** A host on which the child answers, with a latency that [float]
    rejects. *)
Definition host_garbled : Host :=
  {| is_win := true;
     ip_address := fun _ => Raise (Exception "ValueError");
     create_subprocess_exec := fun _ => Return 1%nat;
     communicate := fun _ => Return (Some [], 0);
     decode_ignore := fun _ => "tempo=1.2.3ms";
     re_search_latency := fun _ => Some "1.2.3";
     float := fun _ => Raise (Exception "ValueError") |}.

(** Three stored events of two targets. *)
Definition stored_events : list Sink.StoredEvent :=
  [Sink.mkStoredEvent dns 2 14 (11200000 # 1000000);
   Sink.mkStoredEvent "google.com" 100 160 (60250000 # 1000000);
   Sink.mkStoredEvent dns 200 230 (30050000 # 1000000)].

Definition files_with_events : Sink.Files :=
  {| Sink.downtime_events_json := Sink.Stored stored_events;
     Sink.json_writable := true;
     Sink.downtime_report_html := None;
     Sink.html_writable := true |}.

End Scenarios.

(** ** What a run leaves behind, read off the ticks *)

Module Observations.
Import Detector.

(** The sample [monitor] appends to the history for one tick. *)
Definition sample_of (tk : Tick) : option Q :=
  if ok tk
  then Some (match latency tk with None => 1%Q | Some l => l end)
  else None.

(** The last [n] elements of a list. *)
Definition last_n {A} (n : nat) (l : list A) : list A :=
  skipn (length l - n) l.



(** Every event ends no earlier than it starts, and no later than any
    event after it starts. *)
Fixpoint disjoint_in_order (events : list Sink.OutageEvent) : Prop :=
  match events with
  | [] => True
  | e :: rest =>
      Sink.ev_start e <= Sink.ev_end e /\
      Forall (fun e1 => Sink.ev_end e <= Sink.ev_start e1) rest /\
      disjoint_in_order rest
  end.

(** Several passes of [while True]: each pass has its reading of the
    clock and its gathered results. *)
Fixpoint monitor_passes (cfg : Config) (width : nat) (targets : list string)
    (passes : list (Clock.datetime * list ProbeResult)) (m : Monitor)
  : option Monitor :=
  match passes with
  | [] => Some m
  | (now, results) :: rest =>
      match monitor_tick cfg width targets now results m with
      | None => None
      | Some m1 => monitor_passes cfg width targets rest m1
      end
  end.

(** The ticks one pass of the loop holds for the target [t]: one for
    each place [t] has in the list of targets. *)
Definition own_ticks (t : string) (now : Clock.datetime)
    (pairs : list (string * ProbeResult)) : list Tick :=
  map (fun p => mkTick now (snd p))
    (List.filter (fun p => String.eqb (fst p) t) pairs).

(** The ticks a sequence of passes holds for the target [t]. *)
Definition all_own_ticks (t : string) (targets : list string)
    (passes : list (Clock.datetime * list ProbeResult)) : list Tick :=
  concat (map (fun p => own_ticks t (fst p) (combine targets (snd p))) passes).

(** The events of the sink that belong to the target [t]. *)
Definition events_for (t : string) (events : list Sink.OutageEvent)
  : list Sink.OutageEvent :=
  List.filter (fun e => String.eqb (Sink.ev_target e) t) events.

(** Every target has its two entries, and a target that is down has the
    start of its outage. *)
Definition entries_sound (targets : list string) (m : Monitor) : Prop :=
  forall t, In t targets ->
    exists st h,
      states m !! t = Some st /\ histories m !! t = Some h /\
      (outage st = true -> exists s, outage_start st = Some s).

End Observations.

(** ** The cards of the report *)

Module Cards.
Import Sink.

(** [sorted(events, key=lambda x: x["start"], reverse=True)]: latest start
    first, events of equal start in the order they had. *)
Fixpoint insert_desc (e : StoredEvent) (l : list StoredEvent) : list StoredEvent :=
  match l with
  | [] => [e]
  | y :: rest =>
      if start e <? start y then y :: insert_desc e rest else e :: y :: rest
  end.

Definition sorted_events (events : list StoredEvent) : list StoredEvent :=
  fold_right insert_desc [] events.

(** The order of two neighbours in the sorted list: the later start
    first. *)
Definition later_first (a b : StoredEvent) : Prop := start b <= start a.

(** [duration_fmt]: minutes and seconds from one minute on, else seconds
    with one decimal. *)
Inductive duration_fmt :=
| MinSec (mins secs : Z)
| Tenths (seconds : Q).

Definition format_duration (duration_s : Q) : duration_fmt :=
  if Qle_bool 60 duration_s
  then
    let mins := Qfloor (duration_s / 60) in
    let secs := Qfloor (duration_s - inject_Z (60 * Qfloor (duration_s / 60))) in
    MinSec mins secs
  else Tenths (round1 duration_s).

Inductive severity :=
| severity_low
| severity_medium
| severity_high.

Definition severity_of (duration_s : Q) : severity :=
  if negb (Qle_bool 30 duration_s) then severity_low
  else if negb (Qle_bool 120 duration_s) then severity_medium
  else severity_high.

Definition severity_label (s : severity) : string :=
  match s with
  | severity_low => "Curta"
  | severity_medium => "Média"
  | severity_high => "Longa"
  end.

Definition severity_rank (s : severity) : Z :=
  match s with
  | severity_low => 0
  | severity_medium => 1
  | severity_high => 2
  end.

(** What one card shows. *)
Record Card := mkCard {
  card_severity : severity;
  card_target : string;
  card_start : Z;
  card_end : Z;
  card_duration : duration_fmt
}.

Definition card_of (e : StoredEvent) : Card :=
  {| card_severity := severity_of (duration_s e);
     card_target := target e;
     card_start := start e;
     card_end := end_ e;
     card_duration := format_duration (duration_s e) |}.

Definition cards_html (events : list StoredEvent) : list Card :=
  map card_of (sorted_events events).

End Cards.

(** ** The dashboard *)

Module Dashboard.
Import Detector.

Definition TARGETS : list string :=
  ["8.8.8.8"; "8.8.4.4"; "mkm.net.br"; "google.com"; "187.102.40.2";
   "187.102.32.2"].

Definition esc : string := String (Ascii.ascii_of_nat 27) EmptyString.

Definition _color (s color_code : string) : string :=
  String.append esc
    (String.append "["
       (String.append color_code
          (String.append "m" (String.append s (String.append esc "[0m"))))).

Definition levels : list Z := [20; 50; 100; 200; 400; 800].

Definition chars : list string := ["▁"; "▂"; "▃"; "▄"; "▅"; "▆"; "▇"; "█"].

(** The loop [for i, th in enumerate(levels)], from index [i] on. *)
Fixpoint level_from (i : nat) (ths : list Z) (latency_ms : Q) : string :=
  match ths with
  | [] => List.last chars EmptyString
  | th :: rest =>
      if Qle_bool latency_ms (inject_Z th)
      then nth i chars EmptyString
      else level_from (S i) rest latency_ms
  end.

Definition _level_char (latency_ms : option Q) : string :=
  match latency_ms with
  | None => "×"
  | Some v => level_from O levels v
  end.

(** The colour [render_dashboard] gives a sample. *)
Definition sample_color (v : option Q) : string :=
  match v with
  | None => "31"
  | Some l =>
      if Qle_bool l 50 then "32"
      else if Qle_bool l 200 then "33"
      else "31"
  end.

Definition cell (v : option Q) : string := _color (_level_char v) (sample_color v).

(** [hist[-width:]] *)
Definition slice_last {A} (width : nat) (hist : list A) : list A :=
  match width with
  | O => hist
  | S _ => skipn (length hist - width) hist
  end.

(** The padding on the left and the cut to [width] samples. *)
Definition padded (width : nat) (hist : list (option Q)) : list (option Q) :=
  let hist :=
    if (length hist <? width)%nat
    then repeat None (width - length hist) ++ hist
    else hist in
  slice_last width hist.

Definition row_cells (width : nat) (hist : list (option Q)) : list string :=
  map cell (padded width hist).

(** [f"{t:<12}"], for a target written in ASCII (one byte a character). *)
Definition ljust12 (t : string) : string :=
  String.append t (String.concat EmptyString
                     (repeat " "%string (12 - String.length t))).

Definition status_of (st : TargetState) : string :=
  if outage st then "DOWN" else "OK".

Definition status_col (st : TargetState) : string :=
  if outage st then _color "DOWN" "31" else _color "OK" "32".

Definition row (width : nat) (t : string) (hist : list (option Q))
    (st : TargetState) : string :=
  String.append (ljust12 t)
    (String.append " "
       (String.append (status_col st)
          (String.append "  " (String.concat EmptyString (row_cells width hist))))).

(** The loop [for t in TARGETS]: the rows printed, and whether the loop
    came to its end ([false]: a [KeyError] stopped it). *)
Fixpoint render_rows (width : nat)
    (histories : gmap string (list (option Q)))
    (states : gmap string TargetState) (ts : list string) : list string * bool :=
  match ts with
  | [] => ([], true)
  | t :: rest =>
      match histories !! t, states !! t with
      | Some hist, Some st =>
          let '(rows, finished) := render_rows width histories states rest in
          (row width t hist st :: rows, finished)
      | _, _ => ([], false)
      end
  end.

(** [render_dashboard]: the lines printed, and whether it returned.
    [cols] is the width of the terminal and [now_text] the formatted
    reading of the clock. *)
Definition render_dashboard (cols : Z) (now_text : string)
    (histories : gmap string (list (option Q)))
    (states : gmap string TargetState) : list string * bool :=
  let width := display_width cols in
  let header :=
    [String.append (String.append esc (String.append "[2J" (String.append esc "[H")))
       (_color "PING MONITOR" "1;37");
     "Legenda: sucesso por latência ▁ rápido → █ lento | falha ×";
     String.append "Atualizado: " now_text] in
  let '(rows, finished) := render_rows width histories states TARGETS in
  if finished
  then (header ++ rows ++ [EmptyString; "Ctrl+C para sair"], true)
  else (header ++ rows, false).

End Dashboard.

(** ** The labels of the charts *)

Module Reports.
Import Sink.

(** The elements of a list without their repetitions, each at its first
    place. *)
Fixpoint first_occurrences (l : list string) : list string :=
  match l with
  | [] => []
  | x :: rest =>
      x :: List.filter (fun y => negb (String.eqb y x)) (first_occurrences rest)
  end.

(** The sum of a list of integers. *)
Definition total (l : list Z) : Z := fold_right Z.add 0 l.

End Reports.

(** ** The calendar *)

Module Calendar.

(** From here on the origin of [Clock.datetime] is 1970-01-01 00:00:00.
    The year, month and day of the day [z] days after the origin, in the
    Gregorian calendar [datetime] uses. *)
Definition civil_from_days (z : Z) : Z * Z * Z :=
  let z := z + 719468 in
  let era := z / 146097 in
  let doe := z - era * 146097 in
  let yoe := (doe - doe / 1460 + doe / 36524 - doe / 146096) / 365 in
  let doy := doe - (365 * yoe + yoe / 4 - yoe / 100) in
  let mp := (5 * doy + 2) / 153 in
  let d := doy - (153 * mp + 2) / 5 + 1 in
  let m := if mp <? 10 then mp + 3 else mp - 9 in
  let y := yoe + era * 400 + (if m <=? 2 then 1 else 0) in
  (y, m, d).

(** [s.strftime("%d/%m %H:00")] for the second [start_s]: the day, the
    month and the hour the text shows. *)
Definition hour_key (start_s : Z) : Z * Z * Z :=
  let '(_, m, d) := civil_from_days (start_s / 86400) in
  (d, m, (start_s mod 86400) / 3600).

(** Whether [datetime.strptime(e["start"], "%Y-%m-%d %H:%M:%S")] reads
    back the text [strftime] wrote for the second [start_s]: [%Y] wants
    four digits, which the years from 1000 on have; an earlier year has
    them where the platform pads it ([pads]). *)
Definition reads_back (pads : bool) (start_s : Z) : bool :=
  let '(y, _, _) := civil_from_days (start_s / 86400) in
  (1 <=? y) && (y <=? 9999) && ((1000 <=? y) || pads).

(** The days of the months of 1900, the year [strptime] takes when the
    format names none. *)
Definition days_in_month_1900 (m : Z) : Z :=
  if m =? 2 then 28
  else if (m =? 4) || (m =? 6) || (m =? 9) || (m =? 11) then 30
  else 31.

(** Whether [datetime.strptime(x, "%d/%m %H:00")] returns for the text
    of that key; it raises [ValueError] otherwise. *)
Definition strptime_accepts (key : Z * Z * Z) : bool :=
  let '(d, m, h) := key in
  (1 <=? m) && (m <=? 12) && (1 <=? d) && (d <=? days_in_month_1900 m) &&
  (0 <=? h) && (h <=? 23).

End Calendar.

(** ** The two files, with the exceptions the sink lets through *)

Module Disk.
Import Sink.

(** What [downtime_events.json] holds: nothing, text [json.load] rejects
    (or a file that cannot be read), JSON that is no list ([empty] for [{}]
    and for the empty string), or a list of entries as
    [save_downtime_event] writes them.  Lists that hold anything else are
    left out. *)
Inductive stored :=
| NoFile
| Garbled
| NotAList (empty : bool)
| Listed (events : list StoredEvent).

(** What a write meets: it goes through, [open(..., "w")] fails and the
    file stays as it is, or the write fails once [open] has emptied the
    file, which then holds at most the beginning of the text. *)
Inductive fault :=
| Writes
| OpenFails
| WriteFails.

(** What [downtime_report.html] holds: nothing, the rest of a failed
    write, or a page generated from a list of events. *)
Inductive page :=
| NoReport
| Truncated
| ReportOf (events : list StoredEvent).

(** The two files, what a write to each of them meets, and whether the
    platform's [strftime] writes a year before 1000 with four digits. *)
Record Store := mkStore {
  events_json : stored;
  json_fault : fault;
  report_html : page;
  html_fault : fault;
  pads_year : bool
}.

(** The exceptions that leave [save_downtime_event]. *)
Inductive raised :=
| ValueError
| AttributeError.

(** A call that returns, or raises and leaves the files as given. *)
Inductive result :=
| Returned (fs : Store)
| Raised (e : raised) (fs : Store).

(** The [try] around the write of the JSON file. *)
Definition write_json (events : list StoredEvent) (fs : Store) : Store :=
  match json_fault fs with
  | Writes =>
      mkStore (Listed events) (json_fault fs) (report_html fs) (html_fault fs)
        (pads_year fs)
  | OpenFails => fs
  | WriteFails =>
      mkStore Garbled (json_fault fs) (report_html fs) (html_fault fs)
        (pads_year fs)
  end.

(** The [try] around the write of the report. *)
Definition write_html (events : list StoredEvent) (fs : Store) : Store :=
  match html_fault fs with
  | Writes =>
      mkStore (events_json fs) (json_fault fs) (ReportOf events) (html_fault fs)
        (pads_year fs)
  | OpenFails => fs
  | WriteFails =>
      mkStore (events_json fs) (json_fault fs) Truncated (html_fault fs)
        (pads_year fs)
  end.

(** Whether the sort of the hour keys, which parses each of them outside
    any [try], gets through: the events whose start the loop before it
    reads back have a key, the others are skipped by its [except]. *)
Definition timeline_sorts (pads : bool) (events : list StoredEvent) : bool :=
  forallb
    (fun e => negb (Calendar.reads_back pads (start e)) ||
              Calendar.strptime_accepts (Calendar.hour_key (start e)))
    events.

(** [generate_html_report] on a list of well-formed entries: nothing
    raises before the sort of the hour keys, and nothing after it. *)
Definition generate_html_report (events : list StoredEvent) (fs : Store) : result :=
  if timeline_sorts (pads_year fs) events
  then Returned (write_html events fs)
  else Raised ValueError fs.

(** [save_downtime_event]: [events.append] needs a list. *)
Definition save_downtime_event (e : OutageEvent) (fs : Store) : result :=
  match events_json fs with
  | NotAList _ => Raised AttributeError fs
  | NoFile | Garbled =>
      generate_html_report [new_event e] (write_json [new_event e] fs)
  | Listed events =>
      generate_html_report (events ++ [new_event e])
        (write_json (events ++ [new_event e]) fs)
  end.

(** [regenerate_report.regenerate]: every exception ends in a message. *)
Definition regenerate (fs : Store) : Store :=
  match events_json fs with
  | NoFile => fs
  | Garbled => fs
  | NotAList true => write_html [] fs
  | NotAList false => fs
  | Listed events =>
      match generate_html_report events fs with
      | Returned fs1 => fs1
      | Raised _ fs1 => fs1
      end
  end.

(** The list the next [save_downtime_event] starts from. *)
Definition previous_events (fs : Store) : list StoredEvent :=
  match events_json fs with
  | Listed events => events
  | NoFile | Garbled | NotAList _ => []
  end.

(** One save after the other, up to the first that raises. *)
Fixpoint save_all (events : list OutageEvent) (fs : Store) : result :=
  match events with
  | [] => Returned fs
  | e :: rest =>
      match save_downtime_event e fs with
      | Returned fs1 => save_all rest fs1
      | Raised x fs1 => Raised x fs1
      end
  end.

(** The files a call leaves, whether it returned or raised. *)
Definition left_by (r : result) : Store :=
  match r with
  | Returned fs => fs
  | Raised _ fs => fs
  end.

(** The same files with another fate for the write of the JSON file. *)
Definition with_json_fault (f : fault) (fs : Store) : Store :=
  mkStore (events_json fs) f (report_html fs) (html_fault fs) (pads_year fs).

End Disk.

(** ** The loop of [monitor], with the sink and the dashboard *)

Module Loop.
Import Detector.

(** One round of the loop over the targets: it gets to its end, it
    meets the [TypeError] of [now - None], or the call of
    [save_downtime_event] raises; [left] is then what the round had done
    (the state not yet reset, the sample, the event handed over, the
    record logged). *)
Inductive body_result :=
| Completed (o : Outcome) (fs : Disk.Store)
| TypeErrorRaised
| SaveRaised (e : Disk.raised) (left : Outcome) (fs : Disk.Store).

(** The body of the loop [for t, res in zip(targets, results)]. *)
Definition update_target (cfg : Config) (t : string) (now : Clock.datetime)
    (res : ProbeResult) (st : TargetState) (fs : Disk.Store) : body_result :=
  let '(ok, latency) := res in
  if ok then
    let latency := match latency with None => 1%Q | Some l => l end in
    let success_streak1 := success_streak st + 1 in
    let fail_streak1 := 0 in
    if outage st && (recovery_success_threshold cfg <=? success_streak1) then
      match outage_start st with
      | None => TypeErrorRaised
      | Some started =>
          let duration := Clock.total_seconds (now - started) in
          let event := Sink.mkOutageEvent t started now duration in
          match Disk.save_downtime_event event fs with
          | Disk.Raised e fs1 =>
              SaveRaised e
                {| new_state :=
                     {| fail_streak := fail_streak1;
                        success_streak := success_streak1;
                        outage := outage st;
                        outage_start := outage_start st |};
                   sample := Some latency;
                   saved_event := Some event;
                   logged := Some (Voltou t now duration) |}
                fs1
          | Disk.Returned fs1 =>
              Completed
                {| new_state :=
                     {| fail_streak := fail_streak1;
                        success_streak := 0;
                        outage := false;
                        outage_start := None |};
                   sample := Some latency;
                   saved_event := Some event;
                   logged := Some (Voltou t now duration) |}
                fs1
          end
      end
    else
      Completed
        {| new_state :=
             {| fail_streak := fail_streak1;
                success_streak := success_streak1;
                outage := outage st;
                outage_start := outage_start st |};
           sample := Some latency;
           saved_event := None;
           logged := None |}
        fs
  else
    let fail_streak1 := fail_streak st + 1 in
    let success_streak1 := 0 in
    if negb (outage st) && (loss_threshold cfg <=? fail_streak1) then
      Completed
        {| new_state :=
             {| fail_streak := fail_streak1;
                success_streak := success_streak1;
                outage := true;
                outage_start := Some now |};
           sample := None;
           saved_event := None;
           logged := Some (Indisponivel t now fail_streak1) |}
        fs
    else
      Completed
        {| new_state :=
             {| fail_streak := fail_streak1;
                success_streak := success_streak1;
                outage := outage st;
                outage_start := outage_start st |};
           sample := None;
           saved_event := None;
           logged := None |}
        fs.

(** One target followed through the ticks, up to the first exception. *)
Inductive run_result :=
| Ran (w : Track) (fs : Disk.Store)
| RanIntoTypeError
| RanIntoSave (e : Disk.raised) (w : Track) (fs : Disk.Store).

Fixpoint run (cfg : Config) (width : nat) (t : string) (ticks : list Tick)
    (w : Track) (fs : Disk.Store) : run_result :=
  match ticks with
  | [] => Ran w fs
  | tk :: rest =>
      match update_target cfg t (now tk) (res tk) (state w) fs with
      | Completed o fs1 => run cfg width t rest (apply_outcome width o w) fs1
      | TypeErrorRaised => RanIntoTypeError
      | SaveRaised e o fs1 => RanIntoSave e (apply_outcome width o w) fs1
      end
  end.

(** What the loop of [monitor] comes to: its end, or one of the
    exceptions that leave it. *)
Inductive loop_result :=
| Done (m : Monitor) (fs : Disk.Store)
| KeyErrorInLoop
| TypeErrorInLoop
| SaveError (e : Disk.raised) (m : Monitor) (fs : Disk.Store)
| KeyErrorInRender (m : Monitor) (fs : Disk.Store).

Definition record_outcome (width : nat) (t : string) (h : list (option Q))
    (o : Outcome) (m : Monitor) : Monitor :=
  {| states := <[t := new_state o]> (states m);
     histories := <[t := deque_append width h (sample o)]> (histories m);
     sink := sink m ++ opt_list (saved_event o);
     journal := journal m ++ opt_list (logged o) |}.

(** One round of [for t, res in zip(targets, results)]. *)
Definition monitor_update (cfg : Config) (width : nat) (now : Clock.datetime)
    (m : Monitor) (fs : Disk.Store) (tr : string * ProbeResult) : loop_result :=
  let '(t, res) := tr in
  match states m !! t, histories m !! t with
  | Some st, Some h =>
      match update_target cfg t now res st fs with
      | Completed o fs1 => Done (record_outcome width t h o m) fs1
      | TypeErrorRaised => TypeErrorInLoop
      | SaveRaised e o fs1 => SaveError e (record_outcome width t h o m) fs1
      end
  | _, _ => KeyErrorInLoop
  end.

Fixpoint monitor_loop (cfg : Config) (width : nat) (now : Clock.datetime)
    (pairs : list (string * ProbeResult)) (m : Monitor) (fs : Disk.Store)
  : loop_result :=
  match pairs with
  | [] => Done m fs
  | tr :: rest =>
      match monitor_update cfg width now m fs tr with
      | Done m1 fs1 => monitor_loop cfg width now rest m1 fs1
      | stopped => stopped
      end
  end.

(** What one pass of [while True] is given: the results gathered, the
    reading of the clock, and for the dashboard the width of the terminal
    and the formatted time. *)
Record Pass := mkPass {
  pass_results : list ProbeResult;
  pass_now : Clock.datetime;
  pass_cols : Z;
  pass_now_text : string
}.

(** One pass of [while True]: the loop over the targets, then
    [render_dashboard]. *)
Definition monitor_pass (cfg : Config) (width : nat) (targets : list string)
    (p : Pass) (m : Monitor) (fs : Disk.Store) : loop_result :=
  match monitor_loop cfg width (pass_now p) (combine targets (pass_results p)) m fs with
  | Done m1 fs1 =>
      if snd (Dashboard.render_dashboard (pass_cols p) (pass_now_text p)
                (histories m1) (states m1))
      then Done m1 fs1
      else KeyErrorInRender m1 fs1
  | stopped => stopped
  end.

(** [monitor], for as many passes as are given. *)
Fixpoint monitor (cfg : Config) (width : nat) (targets : list string)
    (passes : list Pass) (m : Monitor) (fs : Disk.Store) : loop_result :=
  match passes with
  | [] => Done m fs
  | p :: rest =>
      match monitor_pass cfg width targets p m fs with
      | Done m1 fs1 => monitor cfg width targets rest m1 fs1
      | stopped => stopped
      end
  end.

(** The clock and the results of the passes, as the loop without the
    sink and the dashboard takes them. *)
Definition bare (passes : list Pass) : list (Clock.datetime * list ProbeResult) :=
  map (fun p => (pass_now p, pass_results p)) passes.

End Loop.

(** ** More sample inputs *)

Module Samples.
Import Detector Prober Scenarios.

(** Thresholds of one: every failure opens an outage, every success
    closes it. *)
Definition hair_trigger : Config :=
  {| loss_threshold := 1; recovery_success_threshold := 1 |}.

(** fail, success, fail, success, one per second. *)
Definition flapping : list Tick :=
  [failure_at (1 * second); success_at (2 * second);
   failure_at (3 * second); success_at (4 * second)].

(** A host on which the child answers in 12.5 ms, printed with a comma. *)
Definition host_answering : Host :=
  {| is_win := false;
     ip_address := fun _ => Return tt;
     create_subprocess_exec := fun _ => Return 1%nat;
     communicate := fun _ => Return (Some [], 0);
     decode_ignore := fun _ => "tempo=12,5 ms";
     re_search_latency := fun _ => Some "12,5";
     float := fun text =>
       if String.eqb text "12.5" then Return (25 # 2)
       else Raise (Exception "ValueError") |}.


Definition first_outage : Sink.OutageEvent :=
  Sink.mkOutageEvent dns (3 * second) (15 * second) (12 # 1).

Definition second_outage : Sink.OutageEvent :=
  Sink.mkOutageEvent "google.com" (20 * second) (95 * second) (75 # 1).

End Samples.

(** ** An outage on 29 February *)

Module LeapDay.
Import Detector Scenarios.

(** 2024-02-29 10:00:00, in seconds after the origin. *)
Definition leap_day_10h : Z := 19782 * 86400 + 10 * 3600.

(** The reading of the clock [k] seconds after the second [base]. *)
Definition at_second (base k : Z) : Clock.datetime := (base + k) * 1000000.

(** Three failures, then eleven successes, one per second from [base]
    on. *)
Definition outage_from (base : Z) : list Tick :=
  map (fun k => failure_at (at_second base k)) [1; 2; 3] ++
  map (fun k => success_at (at_second base k))
    [4; 5; 6; 7; 8; 9; 10; 11; 12; 13; 14].

Definition leap_day_outage : list Tick := outage_from leap_day_10h.

(** The same outage one day earlier. *)
Definition eve_outage : list Tick := outage_from (leap_day_10h - 86400).

(** No file yet, and nothing in the way of a write. *)
Definition empty_disk : Disk.Store :=
  Disk.mkStore Disk.NoFile Disk.Writes Disk.NoReport Disk.Writes false.

(** The event of the outage that starts at [base + 3] and ends at
    [base + 14]. *)
Definition outage_event (base : Z) : Sink.OutageEvent :=
  Sink.mkOutageEvent dns (at_second base 3) (at_second base 14)
    (11000000 # 1000000).

(** The files after the outage of the leap day. *)
Definition leap_day_disk : Disk.Store :=
  Disk.mkStore (Disk.Listed [Sink.new_event (outage_event leap_day_10h)])
    Disk.Writes Disk.NoReport Disk.Writes false.

(** One event stored, in a JSON file that cannot be opened for writing. *)
Definition read_only_disk : Disk.Store :=
  Disk.mkStore (Disk.Listed [Sink.new_event Samples.first_outage])
    Disk.OpenFails Disk.NoReport Disk.Writes false.

(** A disk on which the write of the JSON file stops half way. *)
Definition full_disk : Disk.Store :=
  Disk.mkStore (Disk.Listed [Sink.new_event Samples.first_outage])
    Disk.WriteFails Disk.NoReport Disk.Writes false.

(** A pass of the loop over [TARGETS] in which the first target has the
    result of the tick and the five others answer in 10 ms. *)
Definition pass_of (tk : Tick) : Loop.Pass :=
  Loop.mkPass (res tk :: repeat (true, Some (10 # 1)) 5) (now tk) 80 "".

End LeapDay.

(** * Properties *)

Import Detector Scenarios.

(** ** Runs *)

Section Runs.
Variables (cfg : Config) (width : nat) (t : string).

Lemma run_app (a b : list Tick) (w : Track) :
  run cfg width t (a ++ b) w =
  match run cfg width t a w with
  | Some w1 => run cfg width t b w1
  | None => None
  end.
Proof.
  revert w. induction a as [|tk a IH]; intros w; simpl.
  - reflexivity.
  - destruct (process_result cfg width t tk w); [apply IH | reflexivity].
Qed.

Lemma run_snoc (a : list Tick) (tk : Tick) (w : Track) :
  run cfg width t (a ++ [tk]) w =
  match run cfg width t a w with
  | Some w1 => process_result cfg width t tk w1
  | None => None
  end.
Proof.
  rewrite run_app. destruct (run cfg width t a w) as [w1|]; [|reflexivity].
  simpl. destruct (process_result cfg width t tk w1); reflexivity.
Qed.

Lemma process_result_state (tk : Tick) (w w1 : Track) :
  process_result cfg width t tk w = Some w1 ->
  exists o, update_target cfg t (now tk) (res tk) (state w) = Some o /\
            w1 = apply_outcome width o w.
Proof.
  unfold process_result.
  destruct (update_target cfg t (now tk) (res tk) (state w)) as [o|]; [|discriminate].
  intros [= <-]. eauto.
Qed.

End Runs.

(** ** Streaks *)

Lemma leading_snoc (b x : bool) (l : list bool) :
  leading b (rev (l ++ [x])) = if Bool.eqb x b then S (leading b (rev l)) else O.
Proof. rewrite rev_app_distr. reflexivity. Qed.

Lemma consecutive_failures_snoc (oks : list bool) (x : bool) :
  consecutive_failures (oks ++ [x]) = if x then 0 else consecutive_failures oks + 1.
Proof.
  unfold consecutive_failures. rewrite leading_snoc.
  destruct x; simpl; [reflexivity | lia].
Qed.

Lemma consecutive_successes_snoc (oks : list bool) (x : bool) :
  consecutive_successes (oks ++ [x]) = if x then consecutive_successes oks + 1 else 0.
Proof.
  unfold consecutive_successes. rewrite leading_snoc.
  destruct x; simpl; [lia | reflexivity].
Qed.

Lemma consecutive_failures_nonneg (oks : list bool) : 0 <= consecutive_failures oks.
Proof. unfold consecutive_failures. lia. Qed.

Lemma consecutive_successes_nonneg (oks : list bool) : 0 <= consecutive_successes oks.
Proof. unfold consecutive_successes. lia. Qed.

(** ** What holds of every state the detector reaches *)

Ltac close_reached Hs Hsu :=
  split; simpl;
  rewrite ?consecutive_failures_snoc, ?consecutive_successes_snoc;
  intros;
  first [ reflexivity | discriminate | lia
        | rewrite Hs by reflexivity; reflexivity
        | apply Hsu; reflexivity
        | left; reflexivity
        | right; reflexivity
        | eauto ].

Lemma reached_init (cfg : Config) : reached cfg [] TargetState_init.
Proof.
  split; simpl; try reflexivity; try discriminate; try lia.
Qed.

Lemma reached_step (cfg : Config) (t : string) (nw : Clock.datetime)
    (r : ProbeResult) (oks : list bool) (st : TargetState) :
  reached cfg oks st ->
  exists o, update_target cfg t nw r st = Some o /\
            reached cfg (oks ++ [fst r]) (new_state o).
Proof.
  intros [Hf Hs Hn Hu Hd Hsd Hsu Hex].
  destruct r as [okb lat]. unfold update_target. simpl fst.
  destruct okb, (outage st) eqn:Ho; simpl andb.
  - destruct (Hsd eq_refl) as [s Hs0]. rewrite Hs0.
    destruct (recovery_success_threshold cfg <=? success_streak st + 1) eqn:Hle;
      [|apply Z.leb_gt in Hle];
      (eexists; split; [reflexivity|]); close_reached Hs Hsu.
  - eexists; split; [reflexivity|]; close_reached Hs Hsu.
  - eexists; split; [reflexivity|]; close_reached Hs Hsu.
  - destruct (loss_threshold cfg <=? fail_streak st + 1) eqn:Hle;
      [|apply Z.leb_gt in Hle];
      (eexists; split; [reflexivity|]); close_reached Hs Hsu.
Qed.

Lemma run_reached (cfg : Config) (width : nat) (t : string) (ticks : list Tick) :
  exists w, run cfg width t ticks Track_init = Some w /\
            reached cfg (map ok ticks) (state w).
Proof.
  induction ticks as [|tk ticks IH] using rev_ind.
  - exists Track_init. split; [reflexivity | apply reached_init].
  - destruct IH as (w & Hrun & Hinv).
    destruct (reached_step cfg t (now tk) (res tk) _ _ Hinv) as (o & Ho & Hinv').
    exists (apply_outcome width o w). split.
    + rewrite run_snoc, Hrun. unfold process_result. rewrite Ho. reflexivity.
    + rewrite map_app. exact Hinv'.
Qed.

Lemma run_init_reached (cfg : Config) (width : nat) (t : string)
    (ticks : list Tick) (w : Track) :
  run cfg width t ticks Track_init = Some w ->
  reached cfg (map ok ticks) (state w).
Proof.
  intros H. destruct (run_reached cfg width t ticks) as (w' & Hrun & Hinv).
  congruence.
Qed.

(** ** The invariants of [TargetState] *)

(** C4: whatever the outcomes fed to a fresh target, after each tick the
    detector has returned and at most one of [fail_streak] and
    [success_streak] is nonzero.  ([ticks] is any finite sequence, so the
    statement speaks of the state after every tick of every sequence.) *)
Theorem streaks_never_both_nonzero (cfg : Config) (width : nat) (t : string)
    (ticks : list Tick) :
  exists w, run cfg width t ticks Track_init = Some w /\
            (fail_streak (state w) = 0 \/ success_streak (state w) = 0).
Proof.
  destruct (run_reached cfg width t ticks) as (w & Hrun & Hinv).
  exists w. split; [exact Hrun | apply (reached_exclusive _ _ _ Hinv)].
Qed.

(** C5: whatever the outcomes fed to a fresh target, after each tick
    [outage_start] is set exactly when [outage] is true. *)
Theorem outage_start_set_iff_outage (cfg : Config) (width : nat) (t : string)
    (ticks : list Tick) :
  exists w, run cfg width t ticks Track_init = Some w /\
            (outage_start (state w) <> None <-> outage (state w) = true).
Proof.
  destruct (run_reached cfg width t ticks) as (w & Hrun & Hinv).
  exists w. split; [exact Hrun|]. split.
  - intros Hset. destruct (outage (state w)) eqn:Ho; [reflexivity|].
    elim Hset. apply (reached_start_up _ _ _ Hinv Ho).
  - intros Ho. destruct (reached_start_down _ _ _ Hinv Ho) as [s Hs].
    rewrite Hs. discriminate.
Qed.

(** ** The four branches of the loop body *)

Section Branches.
Variables (cfg : Config) (t : string) (nw : Clock.datetime).

Lemma update_target_recover (lat : option Q) (st : TargetState) (s : Clock.datetime) :
  outage st = true -> outage_start st = Some s ->
  recovery_success_threshold cfg <= success_streak st + 1 ->
  update_target cfg t nw (true, lat) st =
  Some {| new_state := mkTargetState 0 0 false None;
          sample := Some (match lat with None => 1%Q | Some l => l end);
          saved_event :=
            Some (Sink.mkOutageEvent t s nw (Clock.total_seconds (nw - s)));
          logged := Some (Voltou t nw (Clock.total_seconds (nw - s))) |}.
Proof.
  intros Ho Hs Hle. unfold update_target. rewrite Ho, Hs.
  apply Z.leb_le in Hle. rewrite Hle. reflexivity.
Qed.

Lemma update_target_success_stay (lat : option Q) (st : TargetState) :
  outage st = false \/ success_streak st + 1 < recovery_success_threshold cfg ->
  update_target cfg t nw (true, lat) st =
  Some {| new_state :=
            mkTargetState 0 (success_streak st + 1) (outage st) (outage_start st);
          sample := Some (match lat with None => 1%Q | Some l => l end);
          saved_event := None;
          logged := None |}.
Proof.
  intros H. unfold update_target.
  destruct H as [Ho|Hlt].
  - rewrite Ho. reflexivity.
  - apply Z.leb_gt in Hlt. rewrite Hlt, andb_false_r. reflexivity.
Qed.

Lemma update_target_declare (lat : option Q) (st : TargetState) :
  outage st = false -> loss_threshold cfg <= fail_streak st + 1 ->
  update_target cfg t nw (false, lat) st =
  Some {| new_state := mkTargetState (fail_streak st + 1) 0 true (Some nw);
          sample := None;
          saved_event := None;
          logged := Some (Indisponivel t nw (fail_streak st + 1)) |}.
Proof.
  intros Ho Hle. unfold update_target. rewrite Ho.
  apply Z.leb_le in Hle. rewrite Hle. reflexivity.
Qed.

Lemma update_target_failure_stay (lat : option Q) (st : TargetState) :
  outage st = true \/ fail_streak st + 1 < loss_threshold cfg ->
  update_target cfg t nw (false, lat) st =
  Some {| new_state :=
            mkTargetState (fail_streak st + 1) 0 (outage st) (outage_start st);
          sample := None;
          saved_event := None;
          logged := None |}.
Proof.
  intros H. unfold update_target.
  destruct H as [Ho|Hlt].
  - rewrite Ho. reflexivity.
  - apply Z.leb_gt in Hlt. rewrite Hlt, andb_false_r. reflexivity.
Qed.

End Branches.

(** ** Declaring an outage *)

(** C1: a target that the detector has followed from its initial state and
    that is up before a tick is declared down by that tick exactly when the
    tick is a failure that brings the number of consecutive failures to
    [loss_threshold] (for a positive threshold: exactly when that number
    equals the threshold, so never on an earlier tick of the streak), and
    [outage_start] is then the reading of the clock of that very tick. *)
Theorem outage_declared_at_threshold (cfg : Config) (width : nat) (t : string)
    (pre : list Tick) (tk : Tick) (w : Track) :
  run cfg width t pre Track_init = Some w ->
  outage (state w) = false ->
  exists w1,
    process_result cfg width t tk w = Some w1 /\
    (outage (state w1) = true <->
     ok tk = false /\
     loss_threshold cfg <= consecutive_failures (map ok (pre ++ [tk]))) /\
    (0 < loss_threshold cfg ->
     (outage (state w1) = true <->
      consecutive_failures (map ok (pre ++ [tk])) = loss_threshold cfg)) /\
    (outage (state w1) = true ->
     outage_start (state w1) = Some (now tk) /\
     saved w1 = saved w /\
     logs w1 =
     logs w ++
     [Indisponivel t (now tk) (consecutive_failures (map ok (pre ++ [tk])))]).
Proof.
  intros Hrun Hup.
  pose proof (run_init_reached _ _ _ _ _ Hrun) as Hinv.
  pose proof (reached_fail _ _ _ Hinv) as Hf.
  pose proof (reached_up_below _ _ _ Hinv) as Hbelow.
  pose proof (consecutive_failures_nonneg (map ok pre)) as Hnn.
  rewrite map_app. simpl map. rewrite consecutive_failures_snoc.
  unfold process_result. destruct tk as [nw [okb lat]].
  change (ok (mkTick nw (okb, lat))) with okb. cbn [now res].
  destruct okb.
  - rewrite update_target_success_stay by (left; exact Hup).
    eexists; split; [reflexivity|]. simpl. rewrite Hup.
    intuition (try discriminate; try lia).
  - destruct (Z_le_gt_dec (loss_threshold cfg) (fail_streak (state w) + 1)) as [Hle|Hgt].
    + rewrite update_target_declare by assumption.
      eexists; split; [reflexivity|]. simpl.
      rewrite app_nil_r, Hf.
      intuition (try reflexivity; try lia).
    + rewrite update_target_failure_stay by (right; lia).
      eexists; split; [reflexivity|]. simpl. rewrite Hup.
      intuition (try discriminate; try lia).
Qed.

(** ** Recovering from an outage *)

Lemma down_without_recovery (cfg : Config) (width : nat) (t : string)
    (post : list Tick) (oks : list bool) (w : Track) :
  reached cfg oks (state w) ->
  outage (state w) = true ->
  (forall k, (1 <= k <= length post)%nat ->
     consecutive_successes (oks ++ map ok (firstn k post)) <
     recovery_success_threshold cfg) ->
  exists w2, run cfg width t post w = Some w2 /\
             saved w2 = saved w /\ logs w2 = logs w /\
             outage (state w2) = true /\
             outage_start (state w2) = outage_start (state w).
Proof.
  revert oks w. induction post as [|tk post IH]; intros oks w Hinv Hdown Hnever.
  - exists w. repeat split; assumption.
  - pose proof (Hnever 1%nat ltac:(simpl; lia)) as H1. simpl in H1.
    rewrite consecutive_successes_snoc in H1.
    pose proof (reached_success_down _ _ _ Hinv Hdown) as Hs.
    destruct (reached_step cfg t (now tk) (res tk) _ _ Hinv) as (o & Ho & Hinv').
    assert (Hkeep : outage (new_state o) = true /\
                    outage_start (new_state o) = outage_start (state w) /\
                    saved_event o = None /\ logged o = None).
    { destruct tk as [nw [okb lat]].
      change (ok (mkTick nw (okb, lat))) with okb in H1. cbn [now res] in Ho.
      destruct okb.
      - rewrite update_target_success_stay in Ho by (right; lia).
        injection Ho as <-. simpl. auto.
      - rewrite update_target_failure_stay in Ho by (left; exact Hdown).
        injection Ho as <-. simpl. auto. }
    destruct Hkeep as (Hd' & Hst' & Hev & Hlg).
    destruct (IH (oks ++ [fst (res tk)]) (apply_outcome width o w)) as
      (w2 & Hrun & Hsv & Hlog & Hd2 & Hst2).
    + exact Hinv'.
    + exact Hd'.
    + intros k Hk. specialize (Hnever (S k) ltac:(simpl; lia)).
      simpl in Hnever. rewrite <- app_assoc. exact Hnever.
    + exists w2. simpl. unfold process_result. rewrite Ho.
      split; [exact Hrun|].
      rewrite Hsv, Hlog, Hst2. simpl. rewrite Hev, Hlg, Hst'. simpl.
      rewrite !app_nil_r. auto.
Qed.

(** When the call of [save_downtime_event] returns: a target that the
    detector has followed from its initial state and that is down before a
    tick recovers on that tick exactly when the tick is a success that
    brings the number of consecutive successes to
    [recovery_success_threshold] (for a positive threshold: exactly when
    that number equals the threshold, so never on an earlier tick); the
    recovering tick hands exactly one event to the sink and leaves
    [success_streak] at 0, any other tick hands over none; and as long as
    the number of consecutive successes stays below the threshold the
    target stays down and no event is handed over at all. *)
Theorem recovery_at_threshold (cfg : Config) (width : nat) (t : string)
    (pre : list Tick) (tk : Tick) (w : Track) :
  run cfg width t pre Track_init = Some w ->
  outage (state w) = true ->
  exists s w1,
    outage_start (state w) = Some s /\
    process_result cfg width t tk w = Some w1 /\
    (outage (state w1) = false <->
     ok tk = true /\
     recovery_success_threshold cfg <= consecutive_successes (map ok (pre ++ [tk]))) /\
    (0 < recovery_success_threshold cfg ->
     (outage (state w1) = false <->
      consecutive_successes (map ok (pre ++ [tk])) = recovery_success_threshold cfg)) /\
    (outage (state w1) = false ->
     saved w1 =
     saved w ++
     [Sink.mkOutageEvent t s (now tk) (Clock.total_seconds (now tk - s))] /\
     success_streak (state w1) = 0 /\
     outage_start (state w1) = None) /\
    (outage (state w1) = true ->
     saved w1 = saved w /\ outage_start (state w1) = Some s) /\
    (forall post,
       (forall k, (1 <= k <= length post)%nat ->
          consecutive_successes (map ok (pre ++ firstn k post)) <
          recovery_success_threshold cfg) ->
       exists w2, run cfg width t post w = Some w2 /\
                  saved w2 = saved w /\ outage (state w2) = true).
Proof.
  intros Hrun Hdown.
  pose proof (run_init_reached _ _ _ _ _ Hrun) as Hinv.
  pose proof (reached_success_down _ _ _ Hinv Hdown) as Hs.
  pose proof (reached_down_below _ _ _ Hinv) as Hbelow.
  pose proof (consecutive_successes_nonneg (map ok pre)) as Hnn.
  destruct (reached_start_down _ _ _ Hinv Hdown) as [s Hstart].
  exists s.
  assert (Hlast : forall post,
    (forall k, (1 <= k <= length post)%nat ->
       consecutive_successes (map ok (pre ++ firstn k post)) <
       recovery_success_threshold cfg) ->
    exists w2, run cfg width t post w = Some w2 /\
               saved w2 = saved w /\ outage (state w2) = true).
  { intros post Hnever.
    destruct (down_without_recovery cfg width t post (map ok pre) w Hinv Hdown)
      as (w2 & H1 & H2 & _ & H3 & _).
    - intros k Hk. rewrite <- map_app. apply Hnever, Hk.
    - exists w2. auto. }
  rewrite map_app. simpl map. rewrite consecutive_successes_snoc.
  unfold process_result. destruct tk as [nw [okb lat]].
  change (ok (mkTick nw (okb, lat))) with okb. cbn [now res].
  destruct okb.
  - destruct (Z_le_gt_dec (recovery_success_threshold cfg)
                (success_streak (state w) + 1)) as [Hle|Hgt].
    + rewrite (update_target_recover cfg t nw lat _ s) by assumption.
      eexists; split; [exact Hstart|]. split; [reflexivity|]. simpl.
      rewrite <- Hs.
      intuition (try reflexivity; try discriminate; try lia).
    + rewrite update_target_success_stay by (right; lia).
      eexists; split; [exact Hstart|]. split; [reflexivity|]. simpl.
      rewrite Hdown, Hstart, app_nil_r, <- Hs.
      intuition (try reflexivity; try discriminate; try lia).
  - rewrite update_target_failure_stay by (left; exact Hdown).
    eexists; split; [exact Hstart|]. split; [reflexivity|]. simpl.
    rewrite Hdown, Hstart, app_nil_r.
    intuition (try reflexivity; try discriminate; try lia).
Qed.

(** ** Debouncing *)

Lemma longest_failure_run_from_ge (cur : nat) (oks : list bool) :
  (cur <= longest_failure_run_from cur oks)%nat.
Proof.
  revert cur. induction oks as [|[|] oks IH]; intros cur; simpl.
  - lia.
  - lia.
  - specialize (IH (S cur)). lia.
Qed.

Lemma longest_failure_run_from_firstn (k cur : nat) (oks : list bool) :
  (longest_failure_run_from cur (firstn k oks) <=
   longest_failure_run_from cur oks)%nat.
Proof.
  revert k cur. induction oks as [|[|] oks IH]; intros k cur.
  - rewrite firstn_nil. lia.
  - destruct k; simpl; [lia|]. specialize (IH k O). lia.
  - destruct k; simpl.
    + pose proof (longest_failure_run_from_ge (S cur) oks). lia.
    + apply IH.
Qed.

Lemma up_below_threshold (cfg : Config) (width : nat) (t : string)
    (ticks : list Tick) (cur : nat) (w : Track) :
  outage (state w) = false ->
  fail_streak (state w) = Z.of_nat cur ->
  Z.of_nat (longest_failure_run_from cur (map ok ticks)) < loss_threshold cfg ->
  exists w2, run cfg width t ticks w = Some w2 /\
             outage (state w2) = false /\
             outage_start (state w2) = outage_start (state w) /\
             saved w2 = saved w /\ logs w2 = logs w.
Proof.
  revert cur w. induction ticks as [|tk ticks IH]; intros cur w Hup Hcur Hshort.
  - exists w. auto.
  - destruct tk as [nw [okb lat]]. simpl map in Hshort.
    change (ok (mkTick nw (okb, lat))) with okb in Hshort.
    simpl run. unfold process_result. cbn [now res].
    destruct okb; simpl in Hshort.
    + rewrite update_target_success_stay by (left; exact Hup).
      destruct (IH O (apply_outcome width
                        {| new_state := mkTargetState 0 (success_streak (state w) + 1)
                                          (outage (state w)) (outage_start (state w));
                           sample := Some (match lat with None => 1%Q | Some l => l end);
                           saved_event := None; logged := None |} w))
        as (w2 & Hrun & H1 & H2 & H3 & H4); simpl; try assumption; try reflexivity.
      * lia.
      * exists w2. simpl in H2, H3, H4. rewrite app_nil_r in H3, H4. auto.
    + pose proof (longest_failure_run_from_ge (S cur) (map ok ticks)).
      rewrite update_target_failure_stay by (right; lia).
      destruct (IH (S cur) (apply_outcome width
                        {| new_state := mkTargetState (fail_streak (state w) + 1) 0
                                          (outage (state w)) (outage_start (state w));
                           sample := None;
                           saved_event := None; logged := None |} w))
        as (w2 & Hrun & H1 & H2 & H3 & H4); simpl; try assumption.
      * lia.
      * exists w2. simpl in H2, H3, H4. rewrite app_nil_r in H3, H4. auto.
Qed.

(** C6: take a target that is up with no failure pending (the initial
    state is one) and outcomes in which every run of consecutive failures
    is shorter than [loss_threshold]: after each tick the target is still
    up, nothing was handed to the sink and nothing was logged. *)
Theorem short_failure_runs_never_trip (cfg : Config) (width : nat) (t : string)
    (ticks : list Tick) (w : Track) :
  outage (state w) = false ->
  fail_streak (state w) = 0 ->
  Z.of_nat (longest_failure_run (map ok ticks)) < loss_threshold cfg ->
  forall k, exists wk,
    run cfg width t (firstn k ticks) w = Some wk /\
    outage (state wk) = false /\
    outage_start (state wk) = outage_start (state w) /\
    saved wk = saved w /\ logs wk = logs w.
Proof.
  intros Hup Hzero Hshort k.
  apply (up_below_threshold cfg width t (firstn k ticks) O w Hup Hzero).
  rewrite <- firstn_map.
  pose proof (longest_failure_run_from_firstn k O (map ok ticks)).
  unfold longest_failure_run in Hshort. lia.
Qed.

(** ** What a tick leaves alone *)

Lemma run_saved_extends (cfg : Config) (width : nat) (t : string)
    (ticks : list Tick) (w w2 : Track) :
  run cfg width t ticks w = Some w2 ->
  exists new, saved w2 = saved w ++ new.
Proof.
  revert w. induction ticks as [|tk ticks IH]; intros w Hrun; simpl in Hrun.
  - injection Hrun as <-. exists []. rewrite app_nil_r. reflexivity.
  - destruct (process_result cfg width t tk w) as [w1|] eqn:Hstep; [|discriminate].
    destruct (process_result_state _ _ _ _ _ _ Hstep) as (o & _ & ->).
    destruct (IH _ Hrun) as [new Hnew].
    exists (opt_list (saved_event o) ++ new).
    rewrite Hnew. simpl. rewrite app_assoc. reflexivity.
Qed.

Lemma first_event_dates_from_detection (cfg : Config) (width : nat) (t : string)
    (ticks : list Tick) (w w2 : Track) (s : Clock.datetime) :
  outage (state w) = true ->
  outage_start (state w) = Some s ->
  run cfg width t ticks w = Some w2 ->
  exists new, saved w2 = saved w ++ new /\
    match new with
    | [] => outage (state w2) = true /\ outage_start (state w2) = Some s
    | e :: _ => Sink.ev_start e = s
    end.
Proof.
  revert w. induction ticks as [|tk ticks IH]; intros w Hdown Hstart Hrun;
    simpl in Hrun.
  - injection Hrun as <-. exists []. rewrite app_nil_r. auto.
  - destruct tk as [nw [okb lat]]. unfold process_result in Hrun. cbn [now res] in Hrun.
    destruct okb.
    + destruct (Z_le_gt_dec (recovery_success_threshold cfg)
                  (success_streak (state w) + 1)) as [Hle|Hgt].
      * rewrite (update_target_recover cfg t nw lat _ s) in Hrun by assumption.
        destruct (run_saved_extends _ _ _ _ _ _ Hrun) as [new Hnew].
        simpl in Hnew. rewrite <- app_assoc in Hnew. simpl in Hnew.
        eexists. split; [exact Hnew | reflexivity].
      * rewrite update_target_success_stay in Hrun by (right; lia).
        apply IH in Hrun; [|exact Hdown|exact Hstart].
        destruct Hrun as (new & Hnew & Hm).
        exists new. simpl in Hnew. rewrite app_nil_r in Hnew. auto.
    + rewrite update_target_failure_stay in Hrun by (left; exact Hdown).
      apply IH in Hrun; [|exact Hdown|exact Hstart].
      destruct Hrun as (new & Hnew & Hm).
      exists new. simpl in Hnew. rewrite app_nil_r in Hnew. auto.
Qed.

(** C10: a failure that reaches a target already down leaves [outage] and
    [outage_start] as they were, adds one to [fail_streak], leaves
    [success_streak] at 0, hands nothing to the sink and logs nothing; and
    whatever follows, the target stays down with the same [outage_start]
    until an event is handed over, and the first such event starts at that
    [outage_start]. *)
Theorem failure_while_down_keeps_outage (cfg : Config) (width : nat) (t : string)
    (tk : Tick) (w : Track) (s : Clock.datetime) :
  outage (state w) = true ->
  outage_start (state w) = Some s ->
  ok tk = false ->
  exists w1,
    process_result cfg width t tk w = Some w1 /\
    outage (state w1) = true /\
    outage_start (state w1) = Some s /\
    fail_streak (state w1) = fail_streak (state w) + 1 /\
    success_streak (state w1) = 0 /\
    saved w1 = saved w /\ logs w1 = logs w /\
    forall ticks w2,
      run cfg width t ticks w1 = Some w2 ->
      exists new, saved w2 = saved w ++ new /\
        match new with
        | [] => outage (state w2) = true /\ outage_start (state w2) = Some s
        | e :: _ => Sink.ev_start e = s
        end.
Proof.
  intros Hdown Hstart Hfail.
  destruct tk as [nw [okb lat]]. unfold ok in Hfail. simpl in Hfail. subst okb.
  unfold process_result. cbn [now res].
  rewrite update_target_failure_stay by (left; exact Hdown).
  eexists; split; [reflexivity|]. simpl. rewrite Hdown, Hstart, !app_nil_r.
  repeat split; try reflexivity.
  intros ticks w2 Hrun.
  apply (first_event_dates_from_detection cfg width t ticks _ w2 s) in Hrun;
    [|reflexivity|reflexivity].
  simpl in Hrun. rewrite app_nil_r in Hrun. exact Hrun.
Qed.

(** C8: two successful probes that differ in nothing but the latency they
    report (one may report none) leave the same [TargetState], hand the
    same events to the sink and log the same records, or both meet the
    same exception; only the sample appended to the history differs, and a
    missing latency is recorded there as 1.0 ms. *)
Theorem latency_only_reaches_history (cfg : Config) (width : nat) (t : string)
    (nw : Clock.datetime) (l1 l2 : option Q) (w : Track) :
  match process_result cfg width t (mkTick nw (true, l1)) w,
        process_result cfg width t (mkTick nw (true, l2)) w with
  | Some w1, Some w2 =>
      state w1 = state w2 /\ saved w1 = saved w2 /\ logs w1 = logs w2 /\
      history w1 =
        deque_append width (history w)
          (Some (match l1 with None => 1%Q | Some l => l end)) /\
      history w2 =
        deque_append width (history w)
          (Some (match l2 with None => 1%Q | Some l => l end))
  | None, None => True
  | _, _ => False
  end.
Proof.
  unfold process_result, update_target. cbn [now res].
  destruct (outage (state w) &&
            (recovery_success_threshold cfg <=? success_streak (state w) + 1)).
  - destruct (outage_start (state w)); simpl; auto.
  - simpl. auto.
Qed.

(** ** The events handed to the sink *)

Lemma update_target_event (cfg : Config) (t : string) (nw : Clock.datetime)
    (r : ProbeResult) (st : TargetState) (o : Outcome) (e : Sink.OutageEvent) :
  update_target cfg t nw r st = Some o ->
  saved_event o = Some e ->
  exists s, outage_start st = Some s /\
            e = Sink.mkOutageEvent t s nw (Clock.total_seconds (nw - s)).
Proof.
  destruct r as [okb lat]. unfold update_target.
  destruct okb.
  - destruct (outage st && (recovery_success_threshold cfg <=? success_streak st + 1)).
    + destruct (outage_start st) as [s|]; [|discriminate].
      intros [= <-]. simpl. intros [= <-]. eauto.
    + intros [= <-]. discriminate.
  - destruct (negb (outage st) && (loss_threshold cfg <=? fail_streak st + 1));
      intros [= <-]; discriminate.
Qed.

Lemma update_target_start (cfg : Config) (t : string) (nw : Clock.datetime)
    (r : ProbeResult) (st : TargetState) (o : Outcome) (s : Clock.datetime) :
  update_target cfg t nw r st = Some o ->
  outage_start (new_state o) = Some s ->
  s = nw \/ outage_start st = Some s.
Proof.
  destruct r as [okb lat]. unfold update_target.
  destruct okb.
  - destruct (outage st && (recovery_success_threshold cfg <=? success_streak st + 1)).
    + destruct (outage_start st); [|discriminate].
      intros [= <-]. discriminate.
    + intros [= <-]. simpl. auto.
  - destruct (negb (outage st) && (loss_threshold cfg <=? fail_streak st + 1));
      intros [= <-]; simpl; [intros [= <-]|]; auto.
Qed.

Lemma run_events_duration (cfg : Config) (width : nat) (t : string)
    (ticks : list Tick) (w w2 : Track) :
  run cfg width t ticks w = Some w2 ->
  forall e, In e (saved w2) ->
    In e (saved w) \/
    (Sink.ev_target e = t /\
     Sink.ev_duration e = Clock.total_seconds (Sink.ev_end e - Sink.ev_start e)).
Proof.
  revert w. induction ticks as [|tk ticks IH]; intros w Hrun e Hin; simpl in Hrun.
  - injection Hrun as <-. auto.
  - destruct (process_result cfg width t tk w) as [w1|] eqn:Hstep; [|discriminate].
    destruct (process_result_state _ _ _ _ _ _ Hstep) as (o & Ho & ->).
    destruct (IH _ Hrun e Hin) as [Hold|Hnew]; [|auto].
    simpl in Hold. apply in_app_or in Hold. destruct Hold as [Hold|Hold]; [auto|].
    destruct (saved_event o) as [e'|] eqn:He; simpl in Hold; [|contradiction].
    destruct Hold as [<-|[]].
    destruct (update_target_event _ _ _ _ _ _ _ Ho He) as (s & _ & ->).
    right. simpl. auto.
Qed.

Lemma run_events_order (cfg : Config) (width : nat) (t : string)
    (ticks : list Tick) (w w2 : Track) :
  Clock.nondecreasing (map now ticks) ->
  (forall s, outage_start (state w) = Some s -> Forall (Z.le s) (map now ticks)) ->
  run cfg width t ticks w = Some w2 ->
  forall e, In e (saved w2) ->
    In e (saved w) \/ Sink.ev_start e <= Sink.ev_end e.
Proof.
  revert w. induction ticks as [|tk ticks IH]; intros w Hmono Hstart Hrun e Hin;
    simpl in Hrun.
  - injection Hrun as <-. auto.
  - destruct (process_result cfg width t tk w) as [w1|] eqn:Hstep; [|discriminate].
    destruct (process_result_state _ _ _ _ _ _ Hstep) as (o & Ho & ->).
    simpl in Hmono. destruct Hmono as [Hhead Hmono].
    assert (Hstart1 : forall s, outage_start (new_state o) = Some s ->
                                Forall (Z.le s) (map now ticks)).
    { intros s Hs. destruct (update_target_start _ _ _ _ _ _ _ Ho Hs) as [->|Hs0].
      - exact Hhead.
      - specialize (Hstart s Hs0). simpl in Hstart.
        apply Forall_inv_tail in Hstart. exact Hstart. }
    destruct (IH (apply_outcome width o w) Hmono Hstart1 Hrun e Hin)
      as [Hold|Hnew]; [|auto].
    simpl in Hold. apply in_app_or in Hold. destruct Hold as [Hold|Hold]; [auto|].
    destruct (saved_event o) as [e'|] eqn:He; simpl in Hold; [|contradiction].
    destruct Hold as [<-|[]].
    destruct (update_target_event _ _ _ _ _ _ _ Ho He) as (s & Hs & ->).
    right. simpl. specialize (Hstart s Hs). simpl in Hstart.
    apply Forall_inv in Hstart. exact Hstart.
Qed.

Lemma total_seconds_nonneg (d : Z) : 0 <= d -> (0 <= Clock.total_seconds d)%Q.
Proof. intros H. unfold Clock.total_seconds, Qle. simpl. lia. Qed.

Lemma recorded_span_close (s e : Clock.datetime) :
  (inject_Z (Clock.strftime_seconds e - Clock.strftime_seconds s) - 1 <
   Clock.total_seconds (e - s))%Q /\
  (Clock.total_seconds (e - s) <
   inject_Z (Clock.strftime_seconds e - Clock.strftime_seconds s) + 1)%Q.
Proof.
  unfold Clock.total_seconds, Clock.strftime_seconds, Qlt, Qminus, Qplus, Qopp,
    inject_Z.
  cbn [Qnum Qden].
  pose proof (Z_div_mod_eq_full e 1000000) as He.
  pose proof (Z_div_mod_eq_full s 1000000) as Hs.
  pose proof (Z.mod_pos_bound e 1000000 ltac:(lia)) as Hre.
  pose proof (Z.mod_pos_bound s 1000000 ltac:(lia)) as Hrs.
  split; lia.
Qed.

(** C3, as the code has it: every event handed to the sink by a target
    followed from its initial state carries the duration
    [(end - start).total_seconds()] of its own two timestamps; that
    duration is not negative when the readings of the clock never step
    back; the entry written for it keeps the duration unchanged, and names
    start and end to the whole second only, so that the recorded duration
    lies less than one second away from recorded end minus recorded
    start. *)
Theorem outage_event_duration (cfg : Config) (width : nat) (t : string)
    (ticks : list Tick) (w : Track) :
  run cfg width t ticks Track_init = Some w ->
  forall e, In e (saved w) ->
    Sink.ev_duration e = Clock.total_seconds (Sink.ev_end e - Sink.ev_start e) /\
    (Clock.nondecreasing (map now ticks) -> (0 <= Sink.ev_duration e)%Q) /\
    Sink.target (Sink.new_event e) = t /\
    Sink.duration_s (Sink.new_event e) = Sink.ev_duration e /\
    (inject_Z (Sink.end_ (Sink.new_event e) - Sink.start (Sink.new_event e)) - 1 <
     Sink.duration_s (Sink.new_event e))%Q /\
    (Sink.duration_s (Sink.new_event e) <
     inject_Z (Sink.end_ (Sink.new_event e) - Sink.start (Sink.new_event e)) + 1)%Q.
Proof.
  intros Hrun e Hin.
  destruct (run_events_duration _ _ _ _ _ _ Hrun e Hin) as [[]|[Ht Hd]].
  split; [exact Hd|]. split.
  - intros Hmono.
    destruct (run_events_order cfg width t ticks Track_init w Hmono) with (e := e)
      as [[]|Hle]; try assumption.
    + intros s Hs. discriminate.
    + rewrite Hd. apply total_seconds_nonneg. lia.
  - split; [exact Ht|]. split; [reflexivity|].
    unfold Sink.new_event. cbn [Sink.end_ Sink.start Sink.duration_s].
    rewrite Hd. apply recorded_span_close.
Qed.

(** ** Probe errors *)

Section ProbeErrors.
Import Prober.
Variable h : Host.

Lemma try_except_raise {A} (body : py A) (a : A) (e : exn) :
  try_except body (Return a) = Raise e -> is_Exception e = false.
Proof.
  unfold try_except. destruct body as [x|e']; [discriminate|].
  destruct (is_Exception e') eqn:He'; [discriminate|].
  intros [= <-]. exact He'.
Qed.

Lemma try_except_caught {A} (body : py A) (a : A) (e : exn) :
  body = Raise e -> is_Exception e = true ->
  try_except body (Return a) = Return a.
Proof. intros -> He. unfold try_except. rewrite He. reflexivity. Qed.

Lemma ping_once_raise (target : string) (timeout_ms : Z) (e : exn) :
  ping_once h target timeout_ms = Raise e -> is_Exception e = false.
Proof.
  unfold ping_once, bind.
  destruct (literal_address h target) as [is_ip|e'] eqn:Hlit.
  - apply try_except_raise.
  - intros [= <-]. unfold literal_address in Hlit.
    apply try_except_raise in Hlit. exact Hlit.
Qed.

Lemma attempt_spawn_failure (cmd : list string) (e : exn) :
  create_subprocess_exec h cmd = Raise e -> attempt h cmd = Raise e.
Proof. intros H. unfold attempt, bind. rewrite H. reflexivity. Qed.

Lemma attempt_communicate_failure (cmd : list string) (proc : nat) (e : exn) :
  create_subprocess_exec h cmd = Return proc ->
  communicate h proc = Raise e ->
  attempt h cmd = Raise e.
Proof. intros H1 H2. unfold attempt, bind. rewrite H1, H2. reflexivity. Qed.

(** C7: an [Exception] raised while the probe is performed (by the spawn
    of the child process, by the wait for it, or later inside the [try])
    never leaves [ping_once], which then returns [(False, None)]. *)
Theorem probe_errors_are_failures (target : string) (timeout_ms : Z) (e : exn) :
  is_Exception e = true ->
  ping_once h target timeout_ms <> Raise e /\
  forall is_ip,
    literal_address h target = Return is_ip ->
    (attempt h (ping_command h is_ip target timeout_ms) = Raise e ->
     ping_once h target timeout_ms = Return (false, None)) /\
    (create_subprocess_exec h (ping_command h is_ip target timeout_ms) = Raise e ->
     ping_once h target timeout_ms = Return (false, None)) /\
    (forall proc,
       create_subprocess_exec h (ping_command h is_ip target timeout_ms) =
       Return proc ->
       communicate h proc = Raise e ->
       ping_once h target timeout_ms = Return (false, None)).
Proof.
  intros He. split.
  - intros Hraise. apply ping_once_raise in Hraise. congruence.
  - intros is_ip Hlit.
    assert (Hfold : attempt h (ping_command h is_ip target timeout_ms) = Raise e ->
                    ping_once h target timeout_ms = Return (false, None)).
    { intros Hatt. unfold ping_once, bind. rewrite Hlit.
      apply (try_except_caught _ _ e Hatt He). }
    split; [exact Hfold|]. split.
    + intros Hspawn. apply Hfold, attempt_spawn_failure, Hspawn.
    + intros proc Hspawn Hcomm.
      apply Hfold, (attempt_communicate_failure _ proc); assumption.
Qed.

End ProbeErrors.

(** ** Reporting *)

Lemma generate_html_report_twice (events : list Sink.StoredEvent) (fs : Sink.Files) :
  Sink.generate_html_report events (Sink.generate_html_report events fs) =
  Sink.generate_html_report events fs.
Proof.
  unfold Sink.generate_html_report.
  destruct (Sink.html_writable fs) eqn:Hw; simpl; rewrite ?Hw; reflexivity.
Qed.

Lemma generate_html_report_keeps_events (events : list Sink.StoredEvent)
    (fs : Sink.Files) :
  Sink.downtime_events_json (Sink.generate_html_report events fs) =
  Sink.downtime_events_json fs.
Proof.
  unfold Sink.generate_html_report.
  destruct (Sink.html_writable fs); reflexivity.
Qed.

Lemma stats_get_set_same (k : string) (v : Sink.Stats)
    (d : list (string * Sink.Stats)) :
  Sink.stats_get k (Sink.stats_set k v d) = Some v.
Proof.
  induction d as [|[k0 v0] d IH]; simpl.
  - rewrite String.eqb_refl. reflexivity.
  - destruct (String.eqb k0 k) eqn:Hk; simpl; rewrite Hk; [reflexivity | exact IH].
Qed.

Lemma stats_get_set_other (t k : string) (v : Sink.Stats)
    (d : list (string * Sink.Stats)) :
  k <> t ->
  Sink.stats_get t (Sink.stats_set k v d) = Sink.stats_get t d.
Proof.
  intros Hne. apply String.eqb_neq in Hne.
  induction d as [|[k0 v0] d IH]; simpl.
  - rewrite Hne. reflexivity.
  - destruct (String.eqb k0 k) eqn:Hk; simpl.
    + apply String.eqb_eq in Hk. subst k0. rewrite Hne. reflexivity.
    + destruct (String.eqb k0 t); [reflexivity | exact IH].
Qed.

Lemma stats_get_app (t k : string) (v : Sink.Stats)
    (d : list (string * Sink.Stats)) :
  Sink.stats_get t (d ++ [(k, v)]) =
  match Sink.stats_get t d with
  | Some x => Some x
  | None => if String.eqb k t then Some v else None
  end.
Proof.
  induction d as [|[k0 v0] d IH]; simpl.
  - reflexivity.
  - destruct (String.eqb k0 t); [reflexivity | exact IH].
Qed.

Lemma stats_get_add (t : string) (d : list (string * Sink.Stats))
    (e : Sink.StoredEvent) :
  Sink.stats_get t (Sink.stats_add d e) =
  if String.eqb (Sink.target e) t
  then match Sink.stats_get t d with
       | Some s0 =>
           Some (Sink.mkStats (Sink.count s0 + 1)
                   (Sink.total_duration s0 + Sink.duration_s e)%Q)
       | None => Some (Sink.mkStats (0 + 1) (0 + Sink.duration_s e)%Q)
       end
  else Sink.stats_get t d.
Proof.
  unfold Sink.stats_add.
  destruct (String.eqb (Sink.target e) t) eqn:Ht.
  - apply String.eqb_eq in Ht. subst t.
    destruct (Sink.stats_get (Sink.target e) d) as [s0|] eqn:Hg.
    + rewrite Hg. rewrite stats_get_set_same. reflexivity.
    + rewrite stats_get_app, Hg, String.eqb_refl. rewrite stats_get_set_same.
      reflexivity.
  - apply String.eqb_neq in Ht.
    destruct (Sink.stats_get (Sink.target e) d) as [s0|] eqn:Hg.
    + rewrite Hg. rewrite !stats_get_set_other by exact Ht. reflexivity.
    + rewrite stats_get_app, Hg, String.eqb_refl.
      rewrite !stats_get_set_other by exact Ht.
      rewrite stats_get_app. apply String.eqb_neq in Ht. rewrite Ht.
      destruct (Sink.stats_get t d); reflexivity.
Qed.

Lemma target_stats_snoc (events : list Sink.StoredEvent) (e : Sink.StoredEvent) :
  Sink.target_stats (events ++ [e]) = Sink.stats_add (Sink.target_stats events) e.
Proof. unfold Sink.target_stats. rewrite fold_left_app. reflexivity. Qed.

(** The entry of a target counts its events and adds up their durations in
    the order of the list, starting from 0. *)
Lemma target_stats_entry (t : string) (events : list Sink.StoredEvent) :
  Sink.stats_get t (Sink.target_stats events) =
  match Sink.events_of t events with
  | [] => None
  | l => Some (Sink.mkStats (Z.of_nat (length l))
                 (fold_left Qplus (map Sink.duration_s l) 0%Q))
  end.
Proof.
  induction events as [|e events IH] using rev_ind.
  - reflexivity.
  - rewrite target_stats_snoc, stats_get_add, IH. unfold Sink.events_of.
    rewrite List.filter_app. simpl List.filter.
    destruct (String.eqb (Sink.target e) t).
    + destruct (List.filter (fun e0 => String.eqb (Sink.target e0) t) events)
        as [|e1 l]; simpl app.
      * reflexivity.
      * cbn [Sink.count Sink.total_duration].
        rewrite !app_comm_cons, length_app, map_app, fold_left_app.
        cbn [length map fold_left].
        f_equal. f_equal. lia.
    + rewrite app_nil_r. reflexivity.
Qed.

(** C9: regenerating the report leaves the stored list of events as it
    is, so that a second regeneration reads the same list and writes the
    same aggregate counts and durations; the same holds of two calls of
    [generate_html_report] on one list. *)
Theorem reporting_is_idempotent (fs : Sink.Files) :
  Sink.downtime_events_json (Sink.regenerate fs) = Sink.downtime_events_json fs /\
  Sink.regenerate (Sink.regenerate fs) = Sink.regenerate fs /\
  Sink.downtime_report_html (Sink.regenerate (Sink.regenerate fs)) =
  Sink.downtime_report_html (Sink.regenerate fs) /\
  forall events,
    Sink.generate_html_report events (Sink.generate_html_report events fs) =
    Sink.generate_html_report events fs /\
    Sink.downtime_events_json (Sink.generate_html_report events fs) =
    Sink.downtime_events_json fs.
Proof.
  assert (Hkeep : Sink.downtime_events_json (Sink.regenerate fs) =
                  Sink.downtime_events_json fs).
  { unfold Sink.regenerate.
    destruct (Sink.downtime_events_json fs) eqn:Hj; try exact Hj.
    rewrite generate_html_report_keeps_events. exact Hj. }
  assert (Hidem : Sink.regenerate (Sink.regenerate fs) = Sink.regenerate fs).
  { unfold Sink.regenerate at 1. rewrite Hkeep.
    unfold Sink.regenerate.
    destruct (Sink.downtime_events_json fs); try reflexivity.
    apply generate_html_report_twice. }
  split; [exact Hkeep|]. split; [exact Hidem|]. split.
  - rewrite Hidem. reflexivity.
  - intros events. split.
    + apply generate_html_report_twice.
    + apply generate_html_report_keeps_events.
Qed.

(** ** One target inside the loop over all targets *)

Section AllTargets.
Variables (cfg : Config) (width : nat) (nw : Clock.datetime).

Lemma monitor_loop_none (pairs : list (string * ProbeResult)) :
  monitor_loop cfg width nw pairs None = None.
Proof. induction pairs as [|tr pairs IH]; [reflexivity | exact IH]. Qed.

Lemma monitor_loop_cons (tr : string * ProbeResult)
    (pairs : list (string * ProbeResult)) (m : Monitor) :
  monitor_loop cfg width nw (tr :: pairs) (Some m) =
  monitor_loop cfg width nw pairs (monitor_update cfg width nw m tr).
Proof. reflexivity. Qed.

Lemma monitor_update_lookup (m m1 : Monitor) (t : string) (r : ProbeResult) :
  monitor_update cfg width nw m (t, r) = Some m1 ->
  exists st h o,
    states m !! t = Some st /\ histories m !! t = Some h /\
    update_target cfg t nw r st = Some o /\
    states m1 = <[t := new_state o]> (states m) /\
    histories m1 = <[t := deque_append width h (sample o)]> (histories m) /\
    sink m1 = sink m ++ opt_list (saved_event o) /\
    journal m1 = journal m ++ opt_list (logged o).
Proof.
  unfold monitor_update.
  destruct (states m !! t) as [st|]; [|discriminate].
  destruct (histories m !! t) as [h|]; [|discriminate].
  destruct (update_target cfg t nw r st) as [o|] eqn:Ho; [|discriminate].
  intros [= <-]. exists st, h, o. simpl. auto 10.
Qed.

(** Targets that the loop does not visit keep their entries. *)
Lemma monitor_loop_other (pairs : list (string * ProbeResult))
    (m m2 : Monitor) (t : string) :
  ~ In t (map fst pairs) ->
  monitor_loop cfg width nw pairs (Some m) = Some m2 ->
  states m2 !! t = states m !! t /\ histories m2 !! t = histories m !! t.
Proof.
  revert m. induction pairs as [|[t0 r0] pairs IH]; intros m Hnot Hloop.
  - injection Hloop as <-. auto.
  - rewrite monitor_loop_cons in Hloop.
    destruct (monitor_update cfg width nw m (t0, r0)) as [m1|] eqn:Hup;
      [|rewrite monitor_loop_none in Hloop; discriminate].
    destruct (monitor_update_lookup _ _ _ _ Hup)
      as (st & h & o & _ & _ & _ & Hst & Hh & _).
    simpl in Hnot.
    destruct (IH m1) as [H1 H2]; [tauto | exact Hloop |].
    rewrite H1, H2, Hst, Hh.
    rewrite !lookup_insert_ne by tauto. auto.
Qed.

(** With pairwise distinct targets, one pass of the loop does to the
    entries of a target what [update_target] does with that target's own
    result. *)
Lemma monitor_tick_target (targets : list string) (results : list ProbeResult)
    (m m2 : Monitor) (t : string) (r : ProbeResult) :
  List.NoDup targets ->
  In (t, r) (combine targets results) ->
  monitor_tick cfg width targets nw results m = Some m2 ->
  exists st h o,
    states m !! t = Some st /\ histories m !! t = Some h /\
    update_target cfg t nw r st = Some o /\
    states m2 !! t = Some (new_state o) /\
    histories m2 !! t = Some (deque_append width h (sample o)).
Proof.
  unfold monitor_tick. revert results m.
  induction targets as [|t0 targets IH]; intros results m Hnd Hin Hloop.
  - contradiction.
  - destruct results as [|r0 results]; [contradiction|].
    simpl combine in Hin, Hloop. rewrite monitor_loop_cons in Hloop.
    destruct (monitor_update cfg width nw m (t0, r0)) as [m1|] eqn:Hup;
      [|rewrite monitor_loop_none in Hloop; discriminate].
    destruct (monitor_update_lookup _ _ _ _ Hup)
      as (st & h & o & Hs0 & Hh0 & Ho & Hst & Hh & _).
    apply List.NoDup_cons_iff in Hnd. destruct Hnd as [Hfresh Hnd].
    destruct Hin as [Heq|Hin].
    + injection Heq as <- <-.
      destruct (monitor_loop_other (combine targets results) m1 m2 t0)
        as [H1 H2].
      * intros Hmem. apply Hfresh. apply in_map_iff in Hmem.
        destruct Hmem as ([t1 r1] & <- & Hmem).
        apply in_combine_l in Hmem. exact Hmem.
      * exact Hloop.
      * exists st, h, o. rewrite H1, H2, Hst, Hh, !lookup_insert_eq. auto.
    + assert (Hne : t0 <> t).
      { intros <-. apply Hfresh. apply in_combine_l in Hin. exact Hin. }
      destruct (IH results m1 Hnd Hin Hloop)
        as (st1 & h1 & o1 & Hs1 & Hh1 & Ho1 & Hs2 & Hh2).
      rewrite Hst, lookup_insert_ne in Hs1 by exact Hne.
      rewrite Hh, lookup_insert_ne in Hh1 by exact Hne.
      exists st1, h1, o1. auto.
Qed.

End AllTargets.

(** ** The scenarios, run *)

Example outage_and_recovery_runs :
  option_map (fun w => (state w, saved w))
    (run default_config 30 dns outage_and_recovery Track_init) =
  Some (mkTargetState 0 0 false None,
        [Sink.mkOutageEvent dns (3 * second) (15 * second) (12000000 # 1000000)]).
Proof. vm_compute. reflexivity. Qed.

Example four_failures_run :
  option_map state (run default_config 30 dns four_failures Track_init) =
  Some (mkTargetState 4 0 true (Some (3 * second))).
Proof. vm_compute. reflexivity. Qed.

Example history_is_bounded :
  option_map history (run default_config 3 dns outage_and_recovery Track_init) =
  Some [Some (20 # 1); Some (20 # 1); Some (20 # 1)].
Proof. vm_compute. reflexivity. Qed.

Example cancellation_leaves_ping_once :
  Prober.ping_once host_cancelled dns 1000 = Prober.Raise Prober.CancelledError.
Proof. reflexivity. Qed.

Example garbled_latency_is_dropped :
  Prober.ping_once host_garbled "google.com" 1000 = Prober.Return (true, None) /\
  Prober.ping_command host_garbled false "google.com" 1000 =
  ["ping"; "-n"; "1"; "-w"; "2000"; "-4"; "google.com"]%string.
Proof. split; reflexivity. Qed.

Example round1_ties_to_even :
  Sink.round1 (25 # 100) = (2 # 10) /\ Sink.round1 (75 # 100) = (8 # 10) /\
  Sink.round1 (4125 # 100) = (412 # 10).
Proof. repeat split; reflexivity. Qed.

Example report_of_stored_events :
  Sink.report_of stored_events =
  {| Sink.total_events := 3;
     Sink.chart_labels := [dns; "google.com"];
     Sink.chart_counts := [2; 1];
     Sink.chart_durations := [412 # 10; 602 # 10] |}.
Proof. vm_compute. reflexivity. Qed.

Example regenerate_writes_the_report :
  Sink.downtime_report_html (Sink.regenerate files_with_events) =
  Some (Sink.report_of stored_events).
Proof. reflexivity. Qed.

(** Saving, unlike regenerating, is not idempotent: it appends. *)
Example save_downtime_event_appends :
  let e := Sink.mkOutageEvent dns (3 * second) (15 * second) (12 # 1) in
  Sink.downtime_events_json
    (Sink.save_downtime_event e (Sink.save_downtime_event e files_with_events)) =
  Sink.Stored (stored_events ++ [Sink.new_event e; Sink.new_event e]).
Proof. vm_compute. reflexivity. Qed.

(** ** The theorems at the scenarios *)

(** With the default thresholds the third failure in a row declares the
    outage and dates it at the third tick. *)
Lemma outage_declared_at_threshold_witness :
  exists w w1,
    run default_config 30 dns two_failures Track_init = Some w /\
    process_result default_config 30 dns (failure_at (3 * second)) w = Some w1 /\
    outage (state w1) = true /\
    outage_start (state w1) = Some (3 * second).
Proof.
  epose proof (outage_declared_at_threshold default_config 30 dns two_failures
                 (failure_at (3 * second)) _ eq_refl eq_refl) as H.
  destruct H as (w1 & Hstep & _ & Hexact & Hdate).
  assert (Hdown : outage (state w1) = true).
  { apply Hexact; [simpl; lia | reflexivity]. }
  eexists. exists w1. split; [reflexivity|]. split; [exact Hstep|].
  split; [exact Hdown | apply Hdate, Hdown].
Defined.

(** With the default thresholds the eleventh success in a row ends the
    outage and hands over its one event. *)
Lemma recovery_at_threshold_witness :
  exists w w1,
    run default_config 30 dns (four_failures ++ ten_successes) Track_init = Some w /\
    process_result default_config 30 dns (success_at (15 * second)) w = Some w1 /\
    outage (state w1) = false /\
    saved w1 =
      saved w ++
      [Sink.mkOutageEvent dns (3 * second) (15 * second)
         (Clock.total_seconds (15 * second - 3 * second))] /\
    success_streak (state w1) = 0.
Proof.
  assert (Hpre : exists w,
            run default_config 30 dns (four_failures ++ ten_successes) Track_init =
            Some w /\
            outage (state w) = true /\ outage_start (state w) = Some (3 * second)).
  { eexists. split; [vm_compute; reflexivity|]. split; reflexivity. }
  destruct Hpre as (w & Hrun & Hdown & Hstart).
  destruct (recovery_at_threshold default_config 30 dns
              (four_failures ++ ten_successes)
              (success_at (15 * second)) w Hrun Hdown)
    as (s & w1 & Hs & Hstep & _ & Hexact & Hup & _).
  assert (Hrec : outage (state w1) = false).
  { apply Hexact; vm_compute; reflexivity. }
  destruct (Hup Hrec) as (Hsaved & Hzero & _).
  assert (Hs3 : s = 3 * second) by congruence.
  rewrite Hs3 in Hsaved.
  exists w, w1. split; [exact Hrun|]. split; [exact Hstep|].
  split; [exact Hrec|]. split; [exact Hsaved | exact Hzero].
Defined.

(** fail, fail, success, fail, fail with [loss_threshold = 3]: the target
    is up after the fifth tick, and was after the second. *)
Lemma short_failure_runs_never_trip_witness :
  (exists w5,
     run default_config 30 dns two_short_runs Track_init = Some w5 /\
     outage (state w5) = false /\
     outage_start (state w5) = None /\
     saved w5 = [] /\ logs w5 = []) /\
  (exists w2,
     run default_config 30 dns (firstn 2 two_short_runs) Track_init = Some w2 /\
     outage (state w2) = false /\
     outage_start (state w2) = None /\
     saved w2 = [] /\ logs w2 = []).
Proof.
  pose proof (short_failure_runs_never_trip default_config 30 dns two_short_runs
                Track_init eq_refl eq_refl eq_refl) as H.
  split; [exact (H 5%nat) | exact (H 2%nat)].
Defined.

(** A fourth failure in a row leaves the outage dated at the third. *)
Lemma failure_while_down_keeps_outage_witness :
  exists w w1,
    run default_config 30 dns
      (two_failures ++ [failure_at (3 * second)]) Track_init = Some w /\
    process_result default_config 30 dns (failure_at (4 * second)) w = Some w1 /\
    outage (state w1) = true /\
    outage_start (state w1) = Some (3 * second) /\
    fail_streak (state w1) = fail_streak (state w) + 1.
Proof.
  assert (Hpre : exists w,
            run default_config 30 dns
              (two_failures ++ [failure_at (3 * second)]) Track_init = Some w /\
            outage (state w) = true /\ outage_start (state w) = Some (3 * second)).
  { eexists. split; [vm_compute; reflexivity|]. split; reflexivity. }
  destruct Hpre as (w & Hrun & Hdown & Hstart).
  destruct (failure_while_down_keeps_outage default_config 30 dns
              (failure_at (4 * second)) w (3 * second) Hdown Hstart eq_refl)
    as (w1 & Hstep & Hdown1 & Hstart1 & Hstreak & _).
  exists w, w1. split; [exact Hrun|]. split; [exact Hstep|].
  split; [exact Hdown1|]. split; [exact Hstart1 | exact Hstreak].
Defined.

(** The one event of the scenario lasts twelve seconds. *)
Lemma outage_event_duration_witness :
  exists w e,
    run default_config 30 dns outage_and_recovery Track_init = Some w /\
    In e (saved w) /\
    Sink.ev_duration e = Clock.total_seconds (Sink.ev_end e - Sink.ev_start e) /\
    (0 <= Sink.ev_duration e)%Q.
Proof.
  assert (Hpre : exists w e,
            run default_config 30 dns outage_and_recovery Track_init = Some w /\
            In e (saved w)).
  { eexists. eexists. split; [vm_compute; reflexivity | left; reflexivity]. }
  destruct Hpre as (w & e & Hrun & Hin).
  destruct (outage_event_duration default_config 30 dns outage_and_recovery
              w Hrun e Hin) as (Hd & Hpos & _).
  exists w, e. split; [exact Hrun|]. split; [exact Hin|].
  split; [exact Hd|]. apply Hpos.
  vm_compute. repeat constructor; discriminate.
Defined.

(** No [ping] binary: the probe is a failure, not an exception. *)
Lemma probe_errors_are_failures_witness :
  Prober.ping_once host_without_ping dns 1000 = Prober.Return (false, None).
Proof.
  destruct (probe_errors_are_failures host_without_ping dns 1000
              (Prober.Exception "FileNotFoundError") eq_refl) as [_ H].
  destruct (H true eq_refl) as (_ & Hspawn & _).
  apply Hspawn. reflexivity.
Defined.

(** C3 as stated fails twice over.  With ticks a little more than a second
    apart, the entry written for the event has start 2 s, end 14 s and a
    duration of 11.2 s; and when the wall clock is set back during the
    outage the duration is negative. *)
Lemma recorded_duration_counterexample :
  (exists w e,
     run default_config 30 dns drifting_ticks Track_init = Some w /\
     In e (saved w) /\
     Sink.start (Sink.new_event e) = 2 /\
     Sink.end_ (Sink.new_event e) = 14 /\
     Sink.duration_s (Sink.new_event e) = (11200000 # 1000000) /\
     ~ (Sink.duration_s (Sink.new_event e) ==
        inject_Z (Sink.end_ (Sink.new_event e) - Sink.start (Sink.new_event e)))%Q) /\
  (exists w e,
     run default_config 30 dns clock_set_back Track_init = Some w /\
     In e (saved w) /\
     (Sink.ev_duration e < 0)%Q).
Proof.
  split.
  - eexists. eexists. split; [vm_compute; reflexivity|].
    split; [left; reflexivity|].
    repeat split. unfold Qeq. simpl. discriminate.
  - eexists. eexists. split; [vm_compute; reflexivity|].
    split; [left; reflexivity|]. unfold Qlt. simpl. reflexivity.
Qed.

(** * Further properties of the code *)

Import Observations.

(** ** The history of a target *)

Lemma update_target_sample (cfg : Config) (t : string) (nw : Clock.datetime)
    (r : ProbeResult) (st : TargetState) (o : Outcome) :
  update_target cfg t nw r st = Some o ->
  sample o = sample_of (mkTick nw r).
Proof.
  destruct r as [okb lat]. unfold update_target, sample_of, ok, latency.
  cbn [res fst snd].
  destruct okb.
  - destruct (outage st && (recovery_success_threshold cfg <=? success_streak st + 1)).
    + destruct (outage_start st); [|discriminate]. intros [= <-]. reflexivity.
    + intros [= <-]. reflexivity.
  - destruct (negb (outage st) && (loss_threshold cfg <=? fail_streak st + 1));
      intros [= <-]; reflexivity.
Qed.

Lemma deque_append_last_n {A} (n : nat) (l : list A) (x : A) :
  deque_append n (last_n n l) x = last_n n (l ++ [x]).
Proof.
  unfold deque_append, last_n.
  assert (Hsnoc : skipn (length l - n) l ++ [x] =
                  skipn (length l - n) (l ++ [x])).
  { rewrite skipn_app.
    replace (length l - n - length l)%nat with O by lia. reflexivity. }
  rewrite Hsnoc, skipn_skipn. f_equal.
  rewrite length_skipn, !length_app. simpl. lia.
Qed.

Lemma last_n_length {A} (n : nat) (l : list A) :
  length (last_n n l) = Nat.min n (length l).
Proof. unfold last_n. rewrite length_skipn. lia. Qed.

(** X1: after any number of ticks the history of a target holds the
    samples of the last [width] ticks, oldest first ([None] for a failed
    probe, the latency or 1.0 for a successful one), and so never more
    than [width] of them. *)
Theorem history_keeps_last_samples (cfg : Config) (width : nat) (t : string)
    (ticks : list Tick) :
  exists w,
    run cfg width t ticks Track_init = Some w /\
    history w = last_n width (map sample_of ticks) /\
    length (history w) = Nat.min width (length ticks).
Proof.
  induction ticks as [|tk ticks IH] using rev_ind.
  - exists Track_init. split; [reflexivity|]. split; [reflexivity|].
    simpl. lia.
  - destruct IH as (w & Hrun & Hhist & _).
    destruct (run_reached cfg width t (ticks ++ [tk])) as (w1 & Hrun1 & _).
    exists w1. split; [exact Hrun1|].
    rewrite run_snoc, Hrun in Hrun1.
    destruct (process_result_state _ _ _ _ _ _ Hrun1) as (o & Ho & ->).
    apply update_target_sample in Ho.
    assert (Hh : history (apply_outcome width o w) =
                 last_n width (map sample_of (ticks ++ [tk]))).
    { simpl. rewrite Ho, Hhist, map_app. simpl map.
      destruct tk as [nw r]. apply deque_append_last_n. }
    split; [exact Hh|].
    rewrite Hh, last_n_length, length_map. reflexivity.
Qed.

(** ** Declarations and recoveries *)





(** ** Outage intervals in time *)

Lemma nondecreasing_snoc (l : list Clock.datetime) (x : Clock.datetime) :
  Clock.nondecreasing (l ++ [x]) ->
  Clock.nondecreasing l /\ Forall (fun r => r <= x) l.
Proof.
  induction l as [|a l IH]; simpl.
  - auto.
  - intros [Hall Hrest]. destruct (IH Hrest) as [Hnd Hle].
    apply Forall_app in Hall. destruct Hall as [Hl Hx].
    apply Forall_inv in Hx. auto.
Qed.

Lemma disjoint_in_order_snoc (events : list Sink.OutageEvent)
    (e : Sink.OutageEvent) :
  disjoint_in_order events ->
  Forall (fun e0 => Sink.ev_end e0 <= Sink.ev_start e) events ->
  Sink.ev_start e <= Sink.ev_end e ->
  disjoint_in_order (events ++ [e]).
Proof.
  induction events as [|a events IH]; simpl; intros Hd Hall He.
  - auto.
  - destruct Hd as (Ha & Hafter & Hd).
    split; [exact Ha|]. split.
    + apply Forall_app. split; [exact Hafter|].
      constructor; [|constructor]. apply (Forall_inv Hall).
    + apply IH; [exact Hd | apply (Forall_inv_tail Hall) | exact He].
Qed.

Lemma update_target_dates (cfg : Config) (t : string) (nw : Clock.datetime)
    (r : ProbeResult) (st : TargetState) (o : Outcome) :
  update_target cfg t nw r st = Some o ->
  (exists s, outage_start st = Some s /\ outage_start (new_state o) = None /\
     saved_event o =
     Some (Sink.mkOutageEvent t s nw (Clock.total_seconds (nw - s)))) \/
  (outage_start (new_state o) = outage_start st /\ saved_event o = None) \/
  (outage_start (new_state o) = Some nw /\ saved_event o = None).
Proof.
  destruct r as [okb lat]. unfold update_target.
  destruct okb.
  - destruct (outage st && (recovery_success_threshold cfg <=? success_streak st + 1)).
    + destruct (outage_start st) as [s|]; [|discriminate].
      intros [= <-]. simpl. left. eauto.
    + intros [= <-]. simpl. right. left. auto.
  - destruct (negb (outage st) && (loss_threshold cfg <=? fail_streak st + 1));
      intros [= <-]; simpl; auto.
Qed.

(** What a run under a clock that never steps back maintains: the events
    saved so far are disjoint and in order, they and the open outage are
    dated by readings already taken, and the open outage starts after
    every saved event has ended. *)
Lemma run_intervals (cfg : Config) (width : nat) (t : string) (ticks : list Tick) :
  Clock.nondecreasing (map now ticks) ->
  exists w,
    run cfg width t ticks Track_init = Some w /\
    disjoint_in_order (saved w) /\
    Forall (fun e => In (Sink.ev_end e) (map now ticks)) (saved w) /\
    (forall s, outage_start (state w) = Some s ->
       In s (map now ticks) /\
       Forall (fun e => Sink.ev_end e <= s) (saved w)).
Proof.
  induction ticks as [|tk ticks IH] using rev_ind; intros Hmono.
  - exists Track_init. simpl. repeat split; try constructor; discriminate.
  - rewrite map_app in Hmono. simpl map in Hmono.
    apply nondecreasing_snoc in Hmono. destruct Hmono as [Hmono Hle].
    destruct (IH Hmono) as (w & Hrun & Hdis & Hends & Hopen).
    destruct (run_reached cfg width t (ticks ++ [tk])) as (w1 & Hrun1 & _).
    exists w1. split; [exact Hrun1|].
    rewrite run_snoc, Hrun in Hrun1.
    destruct (process_result_state _ _ _ _ _ _ Hrun1) as (o & Ho & ->).
    rewrite map_app. simpl map.
    assert (Hle' : forall x, In x (map now ticks) -> x <= now tk).
    { intros x Hx. rewrite List.Forall_forall in Hle. apply Hle, Hx. }
    assert (Hends' : Forall (fun e => In (Sink.ev_end e) (map now ticks ++ [now tk]))
                       (saved w)).
    { eapply List.Forall_impl; [|exact Hends]. intros e He.
      apply in_or_app. left. exact He. }
    assert (Hbound : Forall (fun e => Sink.ev_end e <= now tk) (saved w)).
    { eapply List.Forall_impl; [|exact Hends]. intros e He. apply Hle', He. }
    destruct (update_target_dates _ _ _ _ _ _ Ho)
      as [(s & Hs & Hnone & He) | [(Hsame & He) | (Hnew & He)]];
      simpl; rewrite He; simpl.
    + destruct (Hopen s Hs) as [Hin Hbefore].
      split; [|split].
      * apply disjoint_in_order_snoc; simpl; auto.
      * apply Forall_app. split; [exact Hends'|].
        constructor; [|constructor]. simpl. apply in_or_app. right. left.
        reflexivity.
      * intros s1 Hs1. congruence.
    + rewrite app_nil_r. split; [exact Hdis|]. split; [exact Hends'|].
      intros s Hs. rewrite Hsame in Hs. destruct (Hopen s Hs) as [Hin Hbefore].
      split; [apply in_or_app; left; exact Hin | exact Hbefore].
    + rewrite app_nil_r. split; [exact Hdis|]. split; [exact Hends'|].
      intros s Hs. rewrite Hnew in Hs. injection Hs as <-.
      split; [apply in_or_app; right; left; reflexivity | exact Hbound].
Qed.

(** X3: when the readings of the clock never step back, the events one
    target hands to the sink are disjoint and in the order of time: each
    ends no earlier than it starts and no later than the next one starts. *)
Theorem outage_events_disjoint (cfg : Config) (width : nat) (t : string)
    (ticks : list Tick) :
  Clock.nondecreasing (map now ticks) ->
  exists w,
    run cfg width t ticks Track_init = Some w /\
    disjoint_in_order (saved w).
Proof.
  intros Hmono.
  destruct (run_intervals cfg width t ticks Hmono) as (w & Hrun & Hdis & _).
  exists w. auto.
Qed.

(** ** The entries of the two dictionaries *)

Lemma update_target_sound (cfg : Config) (t : string) (nw : Clock.datetime)
    (r : ProbeResult) (st : TargetState) :
  (outage st = true -> exists s, outage_start st = Some s) ->
  exists o, update_target cfg t nw r st = Some o /\
            (outage (new_state o) = true ->
             exists s, outage_start (new_state o) = Some s).
Proof.
  intros Hst. destruct r as [okb lat]. unfold update_target.
  destruct okb.
  - destruct (outage st) eqn:Ho; simpl andb.
    + destruct (Hst eq_refl) as [s Hs]. rewrite Hs.
      destruct (recovery_success_threshold cfg <=? success_streak st + 1);
        eexists; (split; [reflexivity|]); simpl; eauto; discriminate.
    + eexists; split; [reflexivity|]. simpl. discriminate.
  - destruct (outage st) eqn:Ho; simpl andb.
    + eexists; split; [reflexivity|]. simpl.
      first [exact Hst | intros _; apply Hst; exact Ho].
    + destruct (loss_threshold cfg <=? fail_streak st + 1);
        eexists; (split; [reflexivity|]); simpl; eauto.
Qed.

Lemma Monitor_init_sound (targets : list string) :
  entries_sound targets (Monitor_init targets).
Proof.
  unfold entries_sound, Monitor_init. simpl.
  induction targets as [|t0 ts IH]; intros t Hin; [contradiction|].
  simpl. destruct (decide (t0 = t)) as [->|Hne].
  - rewrite !lookup_insert_eq. exists TargetState_init, []. repeat split.
    discriminate.
  - rewrite !lookup_insert_ne by exact Hne.
    destruct Hin as [Heq|Hin]; [contradiction|]. apply IH, Hin.
Qed.

Section LoopSafety.
Variables (cfg : Config) (width : nat) (targets : list string).

Lemma monitor_update_sound (nw : Clock.datetime) (m : Monitor)
    (tr : string * ProbeResult) :
  entries_sound targets m -> In (fst tr) targets ->
  exists m1, monitor_update cfg width nw m tr = Some m1 /\
             entries_sound targets m1.
Proof.
  intros Hm Hin. destruct tr as [t r]. simpl in Hin.
  destruct (Hm t Hin) as (st & h & Hst & Hh & Hwf).
  destruct (update_target_sound cfg t nw r st Hwf) as (o & Ho & Hwf').
  unfold monitor_update. rewrite Hst, Hh, Ho.
  eexists; split; [reflexivity|].
  intros t1 Hin1. simpl.
  destruct (decide (t = t1)) as [->|Hne].
  - rewrite !lookup_insert_eq. eauto.
  - rewrite !lookup_insert_ne by exact Hne. apply Hm, Hin1.
Qed.

Lemma monitor_loop_sound (nw : Clock.datetime)
    (pairs : list (string * ProbeResult)) (m : Monitor) :
  entries_sound targets m ->
  (forall tr, In tr pairs -> In (fst tr) targets) ->
  exists m1, monitor_loop cfg width nw pairs (Some m) = Some m1 /\
             entries_sound targets m1.
Proof.
  revert m. induction pairs as [|tr pairs IH]; intros m Hm Hin.
  - exists m. auto.
  - destruct (monitor_update_sound nw m tr Hm) as (m1 & Hup & Hm1).
    { apply Hin. left. reflexivity. }
    rewrite monitor_loop_cons, Hup. apply IH; [exact Hm1|].
    intros tr1 Htr1. apply Hin. right. exact Htr1.
Qed.

Lemma monitor_tick_sound (nw : Clock.datetime) (results : list ProbeResult)
    (m : Monitor) :
  entries_sound targets m ->
  exists m1, monitor_tick cfg width targets nw results m = Some m1 /\
             entries_sound targets m1.
Proof.
  intros Hm. unfold monitor_tick. apply monitor_loop_sound; [exact Hm|].
  intros [t r] Hin. apply in_combine_l in Hin. exact Hin.
Qed.

Lemma monitor_passes_sound
    (passes : list (Clock.datetime * list ProbeResult)) (m0 : Monitor) :
  entries_sound targets m0 ->
  exists m, monitor_passes cfg width targets passes m0 = Some m /\
            entries_sound targets m.
Proof.
  revert m0. induction passes as [|[nw results] rest IH]; intros m0 Hm0.
  - exists m0. auto.
  - destruct (monitor_tick_sound nw results m0 Hm0) as (m1 & Htick & Hm1).
    simpl. rewrite Htick. apply IH, Hm1.
Qed.

End LoopSafety.

(** ** The dashboard *)

Import Dashboard.

Lemma display_width_min (cols : Z) : (30 <= display_width cols)%nat.
Proof. unfold display_width. lia. Qed.

Lemma padded_length (width : nat) (hist : list (option Q)) :
  (0 < width)%nat -> length (padded width hist) = width.
Proof.
  intros Hpos. unfold padded, slice_last.
  destruct width as [|n]; [lia|].
  destruct (length hist <? S n)%nat eqn:Hlt.
  - apply Nat.ltb_lt in Hlt.
    rewrite length_skipn, length_app, repeat_length. lia.
  - apply Nat.ltb_ge in Hlt. rewrite length_skipn. lia.
Qed.

(** X5: whatever the width of the terminal and however many samples the
    history holds, a row of the dashboard shows exactly
    [max(30, cols - 28)] cells. *)
Theorem row_shows_width_cells (cols : Z) (hist : list (option Q)) :
  length (row_cells (display_width cols) hist) = display_width cols /\
  (30 <= display_width cols)%nat.
Proof.
  pose proof (display_width_min cols) as Hmin.
  split; [|exact Hmin].
  unfold row_cells. rewrite length_map. apply padded_length. lia.
Qed.

(** X6: a history shorter than the row is padded on the left, and every
    padding cell is the red cross of a failed probe; a history longer
    than the row shows its last [width] samples. *)
Theorem row_padding_shows_failures (width : nat) (hist : list (option Q)) :
  (0 < width)%nat ->
  row_cells width hist =
  if (length hist <? width)%nat
  then repeat (_color "×" "31") (width - length hist) ++ map cell hist
  else map cell (last_n width hist).
Proof.
  intros Hpos. unfold row_cells, padded, slice_last, last_n.
  destruct width as [|n]; [lia|].
  destruct (length hist <? S n)%nat eqn:Hlt.
  - apply Nat.ltb_lt in Hlt.
    rewrite length_app, repeat_length.
    replace (S n - length hist + length hist - S n)%nat with O by lia.
    rewrite skipn_O, map_app, map_repeat. reflexivity.
  - reflexivity.
Qed.

Ltac split_thresholds :=
  repeat match goal with
         | |- context [Qle_bool ?a ?b] =>
             let H := fresh "Hcmp" in destruct (Qle_bool a b) eqn:H
         end;
  unfold Qle_bool, inject_Z in *; cbn [Qnum Qden] in *;
  repeat match goal with
         | H : (_ <=? _) = true |- _ => apply Z.leb_le in H
         | H : (_ <=? _) = false |- _ => apply Z.leb_gt in H
         end.

(** X7: the glyph and the colour of a sample always go together: the two
    lowest bars are green, the next two yellow, the higher ones red; the
    seventh glyph of [chars] is never shown, a latency above 800 ms having
    the full block. *)
Theorem glyph_and_colour_agree (l : Q) :
  In (sample_color (Some l), _level_char (Some l))
    [("32", "▁"); ("32", "▂"); ("33", "▃"); ("33", "▄");
     ("31", "▅"); ("31", "▆"); ("31", "█")] /\
  _level_char (Some l) <> "▇".
Proof.
  unfold sample_color, _level_char, levels. cbn [level_from].
  split_thresholds; try (exfalso; lia);
    (split; [simpl; auto 10 | simpl; discriminate]).
Qed.

Ltac index_of_glyph g :=
  lazymatch g with
  | nth ?i chars _ => constr:(i)
  | List.last chars _ => constr:(7%nat)
  end.

(** X8: a higher latency never shows a lower bar: the glyphs of two
    latencies stand in [chars] in the order of the latencies. *)
Theorem level_char_monotone (l1 l2 : Q) :
  (l1 <= l2)%Q ->
  exists i j,
    (i <= j)%nat /\
    _level_char (Some l1) = nth i chars EmptyString /\
    _level_char (Some l2) = nth j chars EmptyString.
Proof.
  intros Hle. unfold Qle in Hle.
  unfold _level_char, levels. cbn [level_from].
  assert (Hd1 := Pos2Z.is_pos (Qden l1)).
  assert (Hd2 := Pos2Z.is_pos (Qden l2)).
  split_thresholds; try (exfalso; nia).
  all: lazymatch goal with
       | |- exists i j, _ /\ ?g1 = _ /\ ?g2 = _ =>
           let i := index_of_glyph g1 in
           let j := index_of_glyph g2 in
           exists i, j; split; [lia | split; reflexivity]
       end.
Qed.

Lemma render_rows_finished (width : nat)
    (hs : gmap string (list (option Q))) (sts : gmap string TargetState)
    (ts : list string) :
  snd (render_rows width hs sts ts) = true <->
  forall t, In t ts -> is_Some (hs !! t) /\ is_Some (sts !! t).
Proof.
  induction ts as [|t0 ts IH]; simpl.
  - split; [intros _ t [] | reflexivity].
  - destruct (hs !! t0) as [h|] eqn:Hh.
    + destruct (sts !! t0) as [st|] eqn:Hst.
      * destruct (render_rows width hs sts ts) as [rows finished] eqn:Hrows.
        simpl in *. rewrite IH. split.
        -- intros Hall t [<-|Hin]; [|apply Hall, Hin].
           rewrite Hh, Hst. split; eexists; reflexivity.
        -- intros Hall t Hin. apply Hall. right. exact Hin.
      * simpl. split; [discriminate|].
        intros Hall. destruct (Hall t0 (or_introl eq_refl)) as [_ [x Hx]].
        congruence.
    + simpl. split; [discriminate|].
      intros Hall. destruct (Hall t0 (or_introl eq_refl)) as [[x Hx] _].
      congruence.
Qed.

Lemma render_dashboard_finished (cols : Z) (now_text : string)
    (hs : gmap string (list (option Q))) (sts : gmap string TargetState) :
  snd (render_dashboard cols now_text hs sts) =
  snd (render_rows (display_width cols) hs sts TARGETS).
Proof.
  unfold render_dashboard.
  destruct (render_rows (display_width cols) hs sts TARGETS) as [rows [|]];
    reflexivity.
Qed.

Lemma Monitor_init_absent (targets : list string) (t : string) :
  ~ In t targets ->
  states (Monitor_init targets) !! t = None /\
  histories (Monitor_init targets) !! t = None.
Proof.
  unfold Monitor_init. simpl.
  induction targets as [|t0 ts IH]; intros Hnot; simpl.
  - split; apply lookup_empty.
  - simpl in Hnot. rewrite !lookup_insert_ne by tauto. apply IH. tauto.
Qed.

Lemma monitor_passes_other (cfg : Config) (width : nat) (targets : list string)
    (passes : list (Clock.datetime * list ProbeResult)) (m0 m : Monitor)
    (t : string) :
  ~ In t targets ->
  monitor_passes cfg width targets passes m0 = Some m ->
  states m !! t = states m0 !! t /\ histories m !! t = histories m0 !! t.
Proof.
  intros Hnot. revert m0.
  induction passes as [|[nw results] rest IH]; intros m0 Hrun; simpl in Hrun.
  - injection Hrun as <-. auto.
  - destruct (monitor_tick cfg width targets nw results m0) as [m1|] eqn:Htick;
      [|discriminate].
    destruct (IH _ Hrun) as [H1 H2]. rewrite H1, H2.
    apply (monitor_loop_other cfg width nw (combine targets results) m0 m1 t);
      [|exact Htick].
    intros Hin. apply Hnot. apply in_map_iff in Hin.
    destruct Hin as ([t1 r1] & <- & Hin). apply in_combine_l in Hin. exact Hin.
Qed.

(** X9: [render_dashboard] walks the module-level [TARGETS], not the
    targets [monitor] was given: after any number of passes it gets
    through its rows exactly when every one of [TARGETS] is among the
    targets of [monitor], and stops at a [KeyError] otherwise. *)
Theorem render_needs_every_TARGETS (cfg : Config) (width : nat)
    (targets : list string)
    (passes : list (Clock.datetime * list ProbeResult))
    (cols : Z) (now_text : string) :
  exists m,
    monitor_passes cfg width targets passes (Monitor_init targets) = Some m /\
    (snd (render_dashboard cols now_text (histories m) (states m)) = true <->
     forall t, In t TARGETS -> In t targets).
Proof.
  destruct (monitor_passes_sound cfg width targets passes _
              (Monitor_init_sound targets)) as (m & Hrun & Hm).
  exists m. split; [exact Hrun|].
  rewrite render_dashboard_finished, render_rows_finished.
  split.
  - intros Hall t Hin.
    destruct (in_dec String.string_dec t targets) as [Hyes|Hno]; [exact Hyes|].
    exfalso.
    destruct (monitor_passes_other cfg width targets passes _ m t Hno Hrun)
      as [Hs _].
    destruct (Monitor_init_absent targets t Hno) as [Hs0 _].
    destruct (Hall t Hin) as [_ [st Hst]]. congruence.
  - intros Hsub t Hin.
    destruct (Hm t (Hsub t Hin)) as (st & h & Hst & Hh & _).
    rewrite Hst, Hh. split; eexists; reflexivity.
Qed.

(** ** The cards of the report *)

Import Cards.

Lemma insert_desc_perm (e : Sink.StoredEvent) (l : list Sink.StoredEvent) :
  Permutation (e :: l) (insert_desc e l).
Proof.
  induction l as [|y l IH]; simpl.
  - apply Permutation_refl.
  - destruct (Sink.start e <? Sink.start y).
    + apply Permutation_trans with (y :: e :: l).
      * apply perm_swap.
      * apply perm_skip, IH.
    + apply Permutation_refl.
Qed.

Lemma insert_desc_sorted (e : Sink.StoredEvent) (l : list Sink.StoredEvent) :
  StronglySorted later_first l -> StronglySorted later_first (insert_desc e l).
Proof.
  induction l as [|y l IH]; simpl; intros Hs.
  - constructor; constructor.
  - apply StronglySorted_inv in Hs. destruct Hs as [Hs Hy].
    destruct (Sink.start e <? Sink.start y) eqn:Hlt.
    + apply Z.ltb_lt in Hlt. constructor; [apply IH, Hs|].
      apply (Permutation_Forall (insert_desc_perm e l)).
      constructor; [unfold later_first; lia | exact Hy].
    + apply Z.ltb_ge in Hlt. constructor.
      * constructor; assumption.
      * constructor; [exact Hlt|].
        eapply List.Forall_impl; [|exact Hy].
        unfold later_first. intros z Hz. lia.
Qed.

Lemma insert_desc_filter (k : Z) (e : Sink.StoredEvent)
    (l : list Sink.StoredEvent) :
  List.filter (fun x => Sink.start x =? k) (insert_desc e l) =
  List.filter (fun x => Sink.start x =? k) (e :: l).
Proof.
  induction l as [|y l IH]; simpl.
  - reflexivity.
  - destruct (Sink.start e <? Sink.start y) eqn:Hlt; [|reflexivity].
    apply Z.ltb_lt in Hlt. simpl. simpl in IH. rewrite IH.
    destruct (Sink.start e =? k) eqn:He; [|reflexivity].
    apply Z.eqb_eq in He.
    destruct (Sink.start y =? k) eqn:Hy; [|reflexivity].
    apply Z.eqb_eq in Hy. lia.
Qed.

(** X10: the cards come in the order of [sorted(..., reverse=True)]: the
    sorted list holds the same events, the later start first, and events
    that start in the same second keep the order they had in the list. *)
Theorem sorted_events_latest_first (events : list Sink.StoredEvent) :
  Permutation events (sorted_events events) /\
  StronglySorted later_first (sorted_events events) /\
  forall k,
    List.filter (fun x => Sink.start x =? k) (sorted_events events) =
    List.filter (fun x => Sink.start x =? k) events.
Proof.
  unfold sorted_events.
  induction events as [|e events (Hperm & Hsorted & Hstable)]; simpl.
  - split; [constructor|]. split; [constructor | reflexivity].
  - split; [|split].
    + apply Permutation_trans with (e :: fold_right insert_desc [] events).
      * apply perm_skip, Hperm.
      * apply insert_desc_perm.
    + apply insert_desc_sorted, Hsorted.
    + intros k. rewrite insert_desc_filter. simpl. rewrite Hstable. reflexivity.
Qed.

Lemma Qfloor_bounds (n : Z) (p : positive) :
  Qfloor (n # p) * Zpos p <= n /\ n < (Qfloor (n # p) + 1) * Zpos p.
Proof.
  unfold Qfloor.
  pose proof (Z.mul_div_le n (Zpos p) ltac:(lia)).
  pose proof (Z.mul_succ_div_gt n (Zpos p) ltac:(lia)).
  lia.
Qed.

(** X11: an outage of a minute or more is shown as minutes and seconds
    that are the duration cut to the whole second: at least one minute,
    seconds between 0 and 59, and less than one second below the
    duration. *)
Theorem duration_in_minutes_and_seconds (duration_s : Q) :
  (60 <= duration_s)%Q ->
  exists mins secs,
    format_duration duration_s = MinSec mins secs /\
    1 <= mins /\ 0 <= secs <= 59 /\
    (inject_Z (60 * mins + secs) <= duration_s)%Q /\
    (duration_s < inject_Z (60 * mins + secs + 1))%Q.
Proof.
  intros Hlong. unfold format_duration.
  assert (Hb : Qle_bool 60 duration_s = true) by (apply Qle_bool_iff; exact Hlong).
  rewrite Hb. eexists. eexists. split; [reflexivity|].
  destruct duration_s as [n p].
  unfold Qle in Hlong. cbn [Qnum Qden] in Hlong.
  unfold Qdiv, Qmult, Qinv, Qminus, Qplus, Qopp, inject_Z, Qle, Qlt.
  cbn [Qnum Qden].
  set (m := Qfloor (n * 1 # p * 60)).
  pose proof (Qfloor_bounds (n * 1) (p * 60)) as [Hm1 Hm2]. fold m in Hm1, Hm2.
  set (s := Qfloor (n * 1 + - (60 * m) * Zpos p # p * 1)).
  pose proof (Qfloor_bounds (n * 1 + - (60 * m) * Zpos p) (p * 1)) as [Hs1 Hs2].
  fold s in Hs1, Hs2.
  rewrite Pos2Z.inj_mul in Hm1, Hm2, Hs1, Hs2.
  assert (Hp := Pos2Z.is_pos p).
  repeat split; nia.
Qed.

(** X12: a longer outage is never graded lower: the severity of a card
    does not decrease with the duration, and an outage shown in minutes
    is never graded short. *)
Theorem severity_grows_with_duration (d1 d2 : Q) :
  (d1 <= d2)%Q ->
  severity_rank (severity_of d1) <= severity_rank (severity_of d2) /\
  ((60 <= d2)%Q -> severity_of d2 <> severity_low).
Proof.
  intros Hle. unfold Qle in Hle.
  assert (Hd1 := Pos2Z.is_pos (Qden d1)).
  assert (Hd2 := Pos2Z.is_pos (Qden d2)).
  split.
  - unfold severity_of. split_thresholds; simpl; try lia; exfalso; nia.
  - intros H60. unfold Qle in H60. cbn [Qnum Qden] in H60.
    unfold severity_of. split_thresholds; simpl; try discriminate; exfalso; lia.
Qed.

Import Reports.

(** ** The charts of the report *)

Lemma stats_get_none_iff (t : string) (d : list (string * Sink.Stats)) :
  Sink.stats_get t d = None <-> ~ In t (map fst d).
Proof.
  induction d as [|[k v] d IH]; simpl.
  - tauto.
  - destruct (String.eqb k t) eqn:Hk.
    + apply String.eqb_eq in Hk. split; [discriminate | tauto].
    + apply String.eqb_neq in Hk. rewrite IH. tauto.
Qed.

Lemma stats_set_keys (k : string) (v : Sink.Stats) (d : list (string * Sink.Stats)) :
  In k (map fst d) -> map fst (Sink.stats_set k v d) = map fst d.
Proof.
  induction d as [|[k0 v0] d IH]; simpl; intros Hin.
  - contradiction.
  - destruct (String.eqb k0 k) eqn:Hk; simpl; [reflexivity|].
    apply String.eqb_neq in Hk. f_equal. apply IH.
    destruct Hin; [contradiction | assumption].
Qed.

Lemma stats_set_twice_keys (k : string) (v1 v2 : Sink.Stats)
    (d : list (string * Sink.Stats)) :
  In k (map fst d) ->
  map fst (Sink.stats_set k v2 (Sink.stats_set k v1 d)) = map fst d.
Proof.
  intros Hin. rewrite stats_set_keys.
  - apply stats_set_keys, Hin.
  - rewrite stats_set_keys; exact Hin.
Qed.

Lemma stats_add_keys (d : list (string * Sink.Stats)) (e : Sink.StoredEvent) :
  map fst (Sink.stats_add d e) =
  if in_dec String.string_dec (Sink.target e) (map fst d)
  then map fst d
  else map fst d ++ [Sink.target e].
Proof.
  unfold Sink.stats_add.
  destruct (in_dec String.string_dec (Sink.target e) (map fst d)) as [Hin|Hnot].
  - destruct (Sink.stats_get (Sink.target e) d) as [s0|] eqn:Hg.
    + rewrite Hg. apply stats_set_twice_keys, Hin.
    + apply stats_get_none_iff in Hg. contradiction.
  - apply stats_get_none_iff in Hnot. rewrite Hnot.
    rewrite stats_get_app, Hnot, String.eqb_refl.
    rewrite stats_set_twice_keys.
    + rewrite map_app. reflexivity.
    + rewrite map_app. apply in_or_app. right. left. reflexivity.
Qed.

Lemma first_occurrences_in (x : string) (l : list string) :
  In x (first_occurrences l) <-> In x l.
Proof.
  induction l as [|a l IH]; simpl; [tauto|].
  rewrite List.filter_In, IH.
  destruct (String.eqb x a) eqn:Hx.
  - apply String.eqb_eq in Hx. subst. tauto.
  - apply String.eqb_neq in Hx. simpl.
    split; [intros [H|[H _]]; auto | intros [H|H]; auto].
Qed.

Lemma first_occurrences_NoDup (l : list string) : List.NoDup (first_occurrences l).
Proof.
  induction l as [|a l IH]; simpl; constructor.
  - rewrite List.filter_In. intros [_ H]. rewrite String.eqb_refl in H.
    discriminate.
  - apply List.NoDup_filter, IH.
Qed.

Lemma first_occurrences_snoc (l : list string) (x : string) :
  first_occurrences (l ++ [x]) =
  if in_dec String.string_dec x l
  then first_occurrences l
  else first_occurrences l ++ [x].
Proof.
  induction l as [|a l IH]; simpl.
  - reflexivity.
  - rewrite IH.
    destruct (in_dec String.string_dec x l) as [Hin|Hnot];
      destruct (String.string_dec a x) as [->|Hne].
    + reflexivity.
    + reflexivity.
    + rewrite List.filter_app. simpl. rewrite String.eqb_refl. simpl.
      rewrite app_nil_r. reflexivity.
    + rewrite List.filter_app. simpl.
      assert (Hx : String.eqb x a = false) by (apply String.eqb_neq; congruence).
      rewrite Hx. simpl. reflexivity.
Qed.

Lemma target_stats_keys (events : list Sink.StoredEvent) :
  map fst (Sink.target_stats events) =
  first_occurrences (map Sink.target events).
Proof.
  induction events as [|e events IH] using rev_ind.
  - reflexivity.
  - rewrite target_stats_snoc, stats_add_keys, map_app.
    change (map Sink.target [e]) with [Sink.target e].
    rewrite first_occurrences_snoc, IH.
    destruct (in_dec String.string_dec (Sink.target e)
                (first_occurrences (map Sink.target events))) as [Hin|Hnot];
      destruct (in_dec String.string_dec (Sink.target e)
                  (map Sink.target events)) as [Hin'|Hnot'];
      try reflexivity.
    + apply -> first_occurrences_in in Hin. contradiction.
    + exfalso. apply Hnot, first_occurrences_in, Hin'.
Qed.

Lemma events_of_nonempty (t : string) (events : list Sink.StoredEvent) :
  In t (map Sink.target events) -> Sink.events_of t events <> [].
Proof.
  intros Hin. apply in_map_iff in Hin. destruct Hin as (e & <- & Hin).
  intros Hnil.
  assert (Hf : In e (Sink.events_of (Sink.target e) events)).
  { unfold Sink.events_of. apply List.filter_In. split; [exact Hin|].
    apply String.eqb_refl. }
  rewrite Hnil in Hf. exact Hf.
Qed.

Lemma chart_counts_of_events (events : list Sink.StoredEvent) :
  Sink.chart_counts (Sink.report_of events) =
  map (fun t => Z.of_nat (length (Sink.events_of t events)))
    (first_occurrences (map Sink.target events)).
Proof.
  unfold Sink.report_of. cbn [Sink.chart_counts].
  rewrite target_stats_keys.
  apply map_ext_in. intros t Hin. apply -> first_occurrences_in in Hin.
  rewrite target_stats_entry.
  pose proof (events_of_nonempty t events Hin) as Hne.
  destruct (Sink.events_of t events); [contradiction | reflexivity].
Qed.

(** X16: the charts of the report have one bar per target that has an
    event, no target twice, in the order in which the targets first appear
    in the list; the bar of the chart of counts is the number of events of
    its target. *)
Theorem chart_bars_per_target (events : list Sink.StoredEvent) :
  Sink.chart_labels (Sink.report_of events) =
    first_occurrences (map Sink.target events) /\
  List.NoDup (Sink.chart_labels (Sink.report_of events)) /\
  Sink.chart_counts (Sink.report_of events) =
    map (fun t => Z.of_nat (length (Sink.events_of t events)))
      (Sink.chart_labels (Sink.report_of events)).
Proof.
  assert (Hlabels : Sink.chart_labels (Sink.report_of events) =
                    first_occurrences (map Sink.target events)).
  { unfold Sink.report_of. cbn [Sink.chart_labels]. apply target_stats_keys. }
  split; [exact Hlabels|]. split.
  - rewrite Hlabels. apply first_occurrences_NoDup.
  - rewrite Hlabels. apply chart_counts_of_events.
Qed.

Lemma total_indicator (x : string) (L : list string) :
  List.NoDup L ->
  total (map (fun t => if String.eqb x t then 1 else 0) L) =
  if in_dec String.string_dec x L then 1 else 0.
Proof.
  induction L as [|a L IH]; intros Hnd; simpl.
  - reflexivity.
  - apply List.NoDup_cons_iff in Hnd. destruct Hnd as [Hfresh Hnd].
    rewrite (IH Hnd).
    destruct (String.string_dec a x) as [->|Hne].
    + rewrite String.eqb_refl.
      destruct (in_dec String.string_dec x L); [contradiction | reflexivity].
    + assert (Hx : String.eqb x a = false) by (apply String.eqb_neq; congruence).
      rewrite Hx.
      destruct (in_dec String.string_dec x L); reflexivity.
Qed.

Lemma total_map_add (f g : string -> Z) (L : list string) :
  total (map (fun t => f t + g t) L) = total (map f L) + total (map g L).
Proof.
  unfold total. induction L as [|a L IH]; simpl; [reflexivity | lia].
Qed.

Lemma events_of_cons_length (t : string) (e : Sink.StoredEvent)
    (events : list Sink.StoredEvent) :
  Z.of_nat (length (Sink.events_of t (e :: events))) =
  (if String.eqb (Sink.target e) t then 1 else 0) +
  Z.of_nat (length (Sink.events_of t events)).
Proof.
  unfold Sink.events_of. simpl.
  destruct (String.eqb (Sink.target e) t); simpl length; lia.
Qed.

Lemma total_counts (L : list string) (events : list Sink.StoredEvent) :
  List.NoDup L ->
  (forall e, In e events -> In (Sink.target e) L) ->
  total (map (fun t => Z.of_nat (length (Sink.events_of t events))) L) =
  Z.of_nat (length events).
Proof.
  intros Hnd. induction events as [|e events IH]; intros Hall.
  - clear Hnd Hall. unfold total. simpl.
    induction L as [|a L IHL]; simpl; [reflexivity | exact IHL].
  - rewrite (map_ext _ _ (fun t => events_of_cons_length t e events)).
    rewrite total_map_add, (total_indicator _ _ Hnd), IH.
    + destruct (in_dec String.string_dec (Sink.target e) L) as [_|Hnot].
      * simpl length. lia.
      * elim Hnot. apply Hall. left. reflexivity.
    + intros e0 He0. apply Hall. right. exact He0.
Qed.

(** X17: the bars of the chart of counts add up to the total number of
    events shown at the top of the report. *)
Theorem chart_counts_add_up (events : list Sink.StoredEvent) :
  total (Sink.chart_counts (Sink.report_of events)) =
  Sink.total_events (Sink.report_of events).
Proof.
  rewrite chart_counts_of_events. cbn [Sink.total_events Sink.report_of].
  apply total_counts.
  - apply first_occurrences_NoDup.
  - intros e He. apply first_occurrences_in. apply in_map. exact He.
Qed.

(** ** What a probe returns *)

Section ProbeResults.
Import Prober.
Variable h : Host.

Lemma extract_latency_some (text : string) (l : Q) :
  _extract_latency_ms h text = Return (Some l) ->
  exists g, re_search_latency h text = Some g /\
            float h (replace_comma g) = Return l.
Proof.
  unfold _extract_latency_ms, try_except, bind.
  destruct (re_search_latency h text) as [g|]; [|discriminate].
  destruct (float h (replace_comma g)) as [v|e] eqn:Hf.
  - intros [= <-]. eauto.
  - destruct (is_Exception e); discriminate.
Qed.

(** X18: [ping_once] reports a latency only for a probe that succeeded:
    the child was started, exited with status 0, its output matched the
    pattern and [float] accepted the matched text (commas read as decimal
    points), the latency being the value of that text. *)
Theorem latency_only_from_successful_probe (target : string) (timeout_ms : Z)
    (okb : bool) (l : Q) :
  ping_once h target timeout_ms = Return (okb, Some l) ->
  okb = true /\
  exists is_ip proc out g,
    literal_address h target = Return is_ip /\
    create_subprocess_exec h (ping_command h is_ip target timeout_ms) =
      Return proc /\
    communicate h proc = Return (out, 0) /\
    re_search_latency h
      (decode_ignore h (match out with Some b => b | None => [] end)) = Some g /\
    float h (replace_comma g) = Return l.
Proof.
  unfold ping_once, bind.
  destruct (literal_address h target) as [is_ip|e] eqn:Hlit; [|discriminate].
  unfold try_except, attempt, bind.
  destruct (create_subprocess_exec h (ping_command h is_ip target timeout_ms))
    as [proc|e] eqn:Hspawn; [|destruct (is_Exception e); discriminate].
  destruct (communicate h proc) as [[out rc]|e] eqn:Hcomm;
    [|destruct (is_Exception e); discriminate].
  cbn [fst snd].
  destruct (rc =? 0) eqn:Hrc.
  - apply Z.eqb_eq in Hrc. subst rc.
    destruct (_extract_latency_ms h _) as [lat|e] eqn:Hext;
      [|destruct (is_Exception e); discriminate].
    intros [= <- ->]. split; [reflexivity|].
    apply extract_latency_some in Hext. destruct Hext as (g & Hg & Hf).
    exists is_ip, proc, out, g. auto.
  - discriminate.
Qed.

(** X19: once the child has been started and waited for, the success
    flag of [ping_once] is exactly "exit status 0", whatever the child
    printed; a nonzero status gives [(False, None)] without the output
    being looked at, and only an exception that is no [Exception] can
    still leave [ping_once]. *)
Theorem probe_success_is_exit_status (target : string) (timeout_ms : Z)
    (is_ip : bool) (proc : nat) (out : option (list Byte.byte)) (rc : Z) :
  literal_address h target = Return is_ip ->
  create_subprocess_exec h (ping_command h is_ip target timeout_ms) = Return proc ->
  communicate h proc = Return (out, rc) ->
  (rc <> 0 -> ping_once h target timeout_ms = Return (false, None)) /\
  (rc = 0 ->
   match ping_once h target timeout_ms with
   | Return (okb, _) => okb = true
   | Raise e => is_Exception e = false
   end).
Proof.
  intros Hlit Hspawn Hcomm.
  unfold ping_once, bind. rewrite Hlit.
  unfold attempt, bind. rewrite Hspawn, Hcomm. cbn [fst snd].
  split.
  - intros Hrc. apply Z.eqb_neq in Hrc. rewrite Hrc. reflexivity.
  - intros ->. simpl Z.eqb. cbv iota.
    unfold _extract_latency_ms, try_except, bind.
    destruct (re_search_latency h _) as [g|]; [|reflexivity].
    destruct (float h (replace_comma g)) as [v|e]; [reflexivity|].
    destruct (is_Exception e) eqn:He; simpl; rewrite ?He; reflexivity.
Qed.

(** X20: the command line never asks [ping] to wait less than the code
    intends: a name is given at least 2000 ms on Windows and at least 2 s
    elsewhere, an address at least 1 s elsewhere, also for a timeout of
    zero or less; and on the other systems the milliseconds are cut to
    whole seconds. *)
Theorem ping_command_waits_long_enough (is_ip : bool) (target : string)
    (timeout_ms : Z) :
  exists n,
    ping_command h is_ip target timeout_ms =
      (if is_win h
       then ["ping"; "-n"; "1"; "-w"; str n; "-4"; target]
       else ["ping"; "-c"; "1"; "-W"; str n; target])%string /\
    (if is_win h
     then timeout_ms <= n /\ (is_ip = false -> 2000 <= n) /\
          (is_ip = true -> n = timeout_ms)
     else 1 <= n /\ (is_ip = false -> 2 <= n) /\
          (is_ip = true -> 1000 <= timeout_ms ->
           n * 1000 <= timeout_ms < (n + 1) * 1000)).
Proof.
  unfold ping_command.
  destruct (is_win h); eexists; (split; [reflexivity|]).
  - destruct is_ip; repeat split; intros; try discriminate; lia.
  - destruct is_ip; repeat split; intros; try discriminate;
      try (pose proof (Z.mul_div_le timeout_ms 1000 ltac:(lia));
           pose proof (Z.mul_succ_div_gt timeout_ms 1000 ltac:(lia));
           pose proof (Z.mul_div_le (Z.max timeout_ms 2000) 1000 ltac:(lia));
           pose proof (Z.div_le_lower_bound (Z.max timeout_ms 2000) 1000 2
                         ltac:(lia) ltac:(lia));
           lia).
Qed.

End ProbeResults.

(** ** One target inside a pass of the loop *)

Lemma monitor_loop_per_target (cfg : Config) (width : nat) (nw : Clock.datetime)
    (t : string) (pairs : list (string * ProbeResult)) (m m2 : Monitor)
    (w0 : Track) :
  monitor_loop cfg width nw pairs (Some m) = Some m2 ->
  states m !! t = Some (state w0) ->
  histories m !! t = Some (history w0) ->
  events_for t (sink m) = saved w0 ->
  exists w,
    run cfg width t (own_ticks t nw pairs) w0 = Some w /\
    states m2 !! t = Some (state w) /\
    histories m2 !! t = Some (history w) /\
    events_for t (sink m2) = saved w.
Proof.
  revert m w0. induction pairs as [|[t0 r0] pairs IH]; intros m w0 Hloop Hst Hh Hsink.
  - injection Hloop as <-. exists w0. auto.
  - rewrite monitor_loop_cons in Hloop.
    destruct (monitor_update cfg width nw m (t0, r0)) as [m1|] eqn:Hup;
      [|rewrite monitor_loop_none in Hloop; discriminate].
    destruct (monitor_update_lookup _ _ _ _ _ _ _ Hup)
      as (st & h & o & Hs0 & Hh0 & Ho & Hst1 & Hh1 & Hsink1 & _).
    unfold own_ticks. simpl List.filter.
    destruct (String.eqb t0 t) eqn:Heq.
    + apply String.eqb_eq in Heq. subst t0.
      assert (st = state w0) by congruence. subst st.
      assert (h = history w0) by congruence. subst h.
      simpl map. simpl run. unfold process_result. cbn [now res].
      rewrite Ho.
      apply (IH m1 (apply_outcome width o w0) Hloop).
      * rewrite Hst1, lookup_insert_eq. reflexivity.
      * rewrite Hh1, lookup_insert_eq. reflexivity.
      * rewrite Hsink1. unfold events_for. rewrite List.filter_app.
        fold (events_for t (sink m)). rewrite Hsink. simpl. f_equal.
        destruct (saved_event o) as [e|] eqn:He; [|reflexivity].
        destruct (update_target_event _ _ _ _ _ _ _ Ho He) as (s & _ & ->).
        simpl. rewrite String.eqb_refl. reflexivity.
    + apply String.eqb_neq in Heq.
      apply (IH m1 w0 Hloop).
      * rewrite Hst1, lookup_insert_ne by exact Heq. exact Hst.
      * rewrite Hh1, lookup_insert_ne by exact Heq. exact Hh.
      * rewrite Hsink1. unfold events_for. rewrite List.filter_app.
        fold (events_for t (sink m)). rewrite Hsink.
        destruct (saved_event o) as [e|] eqn:He; simpl.
        -- destruct (update_target_event _ _ _ _ _ _ _ Ho He) as (s & _ & ->).
           simpl. apply String.eqb_neq in Heq. rewrite Heq. apply app_nil_r.
        -- apply app_nil_r.
Qed.


(** ** A host without [ping] *)

Lemma failures_while_up (cfg : Config) (width : nat) (t : string)
    (nows : list Clock.datetime) (w : Track) :
  outage (state w) = false ->
  fail_streak (state w) + Z.of_nat (length nows) < loss_threshold cfg ->
  exists w2,
    run cfg width t (map (fun nw => mkTick nw (false, None)) nows) w = Some w2 /\
    outage (state w2) = false /\
    fail_streak (state w2) = fail_streak (state w) + Z.of_nat (length nows) /\
    saved w2 = saved w.
Proof.
  revert w. induction nows as [|nw nows IH]; intros w Hup Hbelow.
  - exists w. simpl. repeat split; try assumption. lia.
  - simpl map. simpl run. unfold process_result. cbn [now res].
    simpl length in Hbelow.
    rewrite update_target_failure_stay by (right; lia).
    match goal with
    | |- context [run _ _ _ _ ?w1] => destruct (IH w1) as (w2 & Hrun & H1 & H2 & H3)
    end.
    + exact Hup.
    + simpl. lia.
    + exists w2. split; [exact Hrun|]. split; [exact H1|].
      simpl in H2, H3. rewrite app_nil_r in H3. split; [|exact H3].
      simpl length. lia.
Qed.

(** X22: on a host where [ping] cannot be started, every probe of a
    target is the failure [(False, None)], and a target followed from its
    initial state is still up after [loss_threshold - 1] passes and down
    after [loss_threshold], the outage being dated at that last pass. *)
Theorem unstartable_ping_declares_outage (h : Prober.Host) (cfg : Config)
    (width : nat) (t : string) (e : Prober.exn) (is_ip : bool)
    (nows : list Clock.datetime) (last_now : Clock.datetime) :
  Prober.is_Exception e = true ->
  Prober.literal_address h t = Prober.Return is_ip ->
  Prober.create_subprocess_exec h (Prober.ping_command h is_ip t 1000) =
    Prober.Raise e ->
  Z.of_nat (length nows) + 1 = loss_threshold cfg ->
  exists r w1 w2,
    Prober.ping_once h t 1000 = Prober.Return r /\
    run cfg width t (map (fun nw => mkTick nw r) nows) Track_init = Some w1 /\
    outage (state w1) = false /\
    process_result cfg width t (mkTick last_now r) w1 = Some w2 /\
    outage (state w2) = true /\
    outage_start (state w2) = Some last_now /\
    saved w2 = [].
Proof.
  intros He Hlit Hspawn Hlen.
  exists (false, None).
  destruct (failures_while_up cfg width t nows Track_init eq_refl)
    as (w1 & Hrun & Hup & Hstreak & Hsaved).
  { simpl. lia. }
  exists w1. eexists. split.
  - unfold Prober.ping_once, Prober.bind. rewrite Hlit.
    apply (try_except_caught _ _ e); [|exact He].
    apply attempt_spawn_failure, Hspawn.
  - split; [exact Hrun|]. split; [exact Hup|].
    unfold process_result. cbn [now res].
    rewrite update_target_declare by (try exact Hup; simpl in Hstreak; lia).
    split; [reflexivity|]. simpl. rewrite Hsaved. auto.
Qed.

(** ** The further properties at sample inputs *)

Import Samples.

Lemma outage_events_disjoint_witness :
  exists w,
    run hair_trigger 30 dns flapping Track_init = Some w /\
    disjoint_in_order (saved w).
Proof.
  apply (outage_events_disjoint hair_trigger 30 dns flapping).
  vm_compute. repeat constructor; discriminate.
Defined.

Lemma row_padding_shows_failures_witness :
  row_cells 5 [Some (20 # 1); None] =
  repeat (_color "×" "31") 3 ++ map cell [Some (20 # 1); None].
Proof.
  apply (row_padding_shows_failures 5 [Some (20 # 1); None]). lia.
Defined.

Lemma level_char_monotone_witness :
  exists i j,
    (i <= j)%nat /\
    _level_char (Some (20 # 1)) = nth i chars EmptyString /\
    _level_char (Some (300 # 1)) = nth j chars EmptyString.
Proof.
  apply (level_char_monotone (20 # 1) (300 # 1)). unfold Qle. simpl. lia.
Defined.

Lemma duration_in_minutes_and_seconds_witness :
  exists mins secs,
    format_duration (251 # 2) = MinSec mins secs /\
    1 <= mins /\ 0 <= secs <= 59 /\
    (inject_Z (60 * mins + secs) <= 251 # 2)%Q /\
    (251 # 2 < inject_Z (60 * mins + secs + 1))%Q.
Proof.
  apply (duration_in_minutes_and_seconds (251 # 2)). unfold Qle. simpl. lia.
Defined.

Lemma severity_grows_with_duration_witness :
  severity_rank (severity_of (10 # 1)) <= severity_rank (severity_of (200 # 1)) /\
  ((60 <= 200 # 1)%Q -> severity_of (200 # 1) <> severity_low).
Proof.
  apply (severity_grows_with_duration (10 # 1) (200 # 1)).
  unfold Qle. simpl. lia.
Defined.

Lemma latency_only_from_successful_probe_witness :
  Prober.ping_once host_answering dns 1000 = Prober.Return (true, Some (25 # 2)) /\
  exists is_ip proc out g,
    Prober.literal_address host_answering dns = Prober.Return is_ip /\
    Prober.create_subprocess_exec host_answering
      (Prober.ping_command host_answering is_ip dns 1000) = Prober.Return proc /\
    Prober.communicate host_answering proc = Prober.Return (out, 0) /\
    Prober.re_search_latency host_answering
      (Prober.decode_ignore host_answering
         (match out with Some b => b | None => [] end)) = Some g /\
    Prober.float host_answering (Prober.replace_comma g) = Prober.Return (25 # 2).
Proof.
  split; [reflexivity|].
  apply (latency_only_from_successful_probe host_answering dns 1000 true (25 # 2)
           eq_refl).
Defined.

Lemma probe_success_is_exit_status_witness :
  (0 <> 0 ->
   Prober.ping_once host_garbled "google.com" 1000 = Prober.Return (false, None)) /\
  (0 = 0 ->
   match Prober.ping_once host_garbled "google.com" 1000 with
   | Prober.Return (okb, _) => okb = true
   | Prober.Raise e => Prober.is_Exception e = false
   end).
Proof.
  apply (probe_success_is_exit_status host_garbled "google.com" 1000 false
           1%nat (Some []) 0); reflexivity.
Defined.

Lemma unstartable_ping_declares_outage_witness :
  exists r w1 w2,
    Prober.ping_once host_without_ping dns 1000 = Prober.Return r /\
    run default_config 30 dns
      (map (fun nw => mkTick nw r) [1 * second; 2 * second]) Track_init = Some w1 /\
    outage (state w1) = false /\
    process_result default_config 30 dns (mkTick (3 * second) r) w1 = Some w2 /\
    outage (state w2) = true /\
    outage_start (state w2) = Some (3 * second) /\
    saved w2 = [].
Proof.
  apply (unstartable_ping_declares_outage host_without_ping default_config 30 dns
           (Prober.Exception "FileNotFoundError") true
           [1 * second; 2 * second] (3 * second)); reflexivity.
Defined.

Lemma Monitor_init_lookup (targets : list string) (t : string) :
  In t targets ->
  states (Monitor_init targets) !! t = Some TargetState_init /\
  histories (Monitor_init targets) !! t = Some [].
Proof.
  unfold Monitor_init. simpl.
  induction targets as [|t0 ts IH]; intros Hin; [contradiction|].
  simpl. destruct (decide (t0 = t)) as [->|Hne].
  - rewrite !lookup_insert_eq. auto.
  - rewrite !lookup_insert_ne by exact Hne.
    destruct Hin as [Heq|Hin]; [contradiction | apply IH, Hin].
Qed.


(** ** One target inside the whole loop *)

Lemma monitor_passes_per_target (cfg : Config) (width : nat)
    (targets : list string) (t : string)
    (passes : list (Clock.datetime * list ProbeResult)) (m0 m : Monitor)
    (w0 : Track) :
  monitor_passes cfg width targets passes m0 = Some m ->
  states m0 !! t = Some (state w0) ->
  histories m0 !! t = Some (history w0) ->
  events_for t (sink m0) = saved w0 ->
  exists w,
    run cfg width t (all_own_ticks t targets passes) w0 = Some w /\
    states m !! t = Some (state w) /\
    histories m !! t = Some (history w) /\
    events_for t (sink m) = saved w.
Proof.
  revert m0 w0. induction passes as [|[nw results] rest IH];
    intros m0 w0 Hrun Hst Hh Hsink; simpl in Hrun.
  - injection Hrun as <-. exists w0. auto.
  - destruct (monitor_tick cfg width targets nw results m0) as [m1|] eqn:Htick;
      [|discriminate].
    destruct (monitor_loop_per_target cfg width nw t (combine targets results)
                m0 m1 w0 Htick Hst Hh Hsink) as (w1 & Hrun1 & Hst1 & Hh1 & Hsink1).
    destruct (IH m1 w1 Hrun Hst1 Hh1 Hsink1) as (w & Hrunw & Hw).
    exists w. split; [|exact Hw].
    unfold all_own_ticks. simpl. rewrite run_app, Hrun1. exact Hrunw.
Qed.

(** * The loop with its sink *)

Import LeapDay.

(** ** The calendar at known dates *)

Example civil_from_days_known_dates :
  map Calendar.civil_from_days
    [0; -1; 365; 11016; 19782; 19783; 19781; -25567; -25509; -25508; 47540;
     2932896; -719162] =
  [(1970, 1, 1); (1969, 12, 31); (1971, 1, 1); (2000, 2, 29); (2024, 2, 29);
   (2024, 3, 1); (2024, 2, 28); (1900, 1, 1); (1900, 2, 28); (1900, 3, 1);
   (2100, 2, 28); (9999, 12, 31); (1, 1, 1)].
Proof. vm_compute. reflexivity. Qed.

Example hour_key_of_leap_day :
  Calendar.civil_from_days ((leap_day_10h + 3) / 86400) = (2024, 2, 29) /\
  Calendar.reads_back false (leap_day_10h + 3) = true /\
  Calendar.hour_key (leap_day_10h + 3) = (29, 2, 10) /\
  Calendar.strptime_accepts (29, 2, 10) = false /\
  Calendar.hour_key (leap_day_10h - 86400 + 3) = (28, 2, 10) /\
  Calendar.strptime_accepts (28, 2, 10) = true.
Proof. vm_compute. repeat split. Qed.

(** ** The loop body with and without its sink *)

Lemma full_update_completed (cfg : Config) (t : string) (nw : Clock.datetime)
    (r : ProbeResult) (st : TargetState) (fs fs1 : Disk.Store) (o : Outcome) :
  Loop.update_target cfg t nw r st fs = Loop.Completed o fs1 ->
  update_target cfg t nw r st = Some o.
Proof.
  destruct r as [okb lat]. unfold Loop.update_target, update_target.
  destruct okb.
  - destruct (outage st && (recovery_success_threshold cfg <=? success_streak st + 1)).
    + destruct (outage_start st) as [s|]; [|discriminate].
      destruct (Disk.save_downtime_event _ fs); [|discriminate].
      intros [= <- _]. reflexivity.
    + intros [= <- _]. reflexivity.
  - destruct (negb (outage st) && (loss_threshold cfg <=? fail_streak st + 1));
      intros [= <- _]; reflexivity.
Qed.

Lemma full_update_type_error (cfg : Config) (t : string) (nw : Clock.datetime)
    (r : ProbeResult) (st : TargetState) (fs : Disk.Store) :
  Loop.update_target cfg t nw r st fs = Loop.TypeErrorRaised ->
  update_target cfg t nw r st = None.
Proof.
  destruct r as [okb lat]. unfold Loop.update_target, update_target.
  destruct okb.
  - destruct (outage st && (recovery_success_threshold cfg <=? success_streak st + 1)).
    + destruct (outage_start st) as [s|]; [|reflexivity].
      destruct (Disk.save_downtime_event _ fs); discriminate.
    + discriminate.
  - destruct (negb (outage st) && (loss_threshold cfg <=? fail_streak st + 1));
      discriminate.
Qed.

(** When the save raises, the round had reached the threshold of a
    target that was down, and leaves that target down. *)
Lemma full_update_save_raised (cfg : Config) (t : string) (nw : Clock.datetime)
    (r : ProbeResult) (st : TargetState) (fs fs1 : Disk.Store)
    (e : Disk.raised) (o : Outcome) :
  Loop.update_target cfg t nw r st fs = Loop.SaveRaised e o fs1 ->
  outage st = true /\
  recovery_success_threshold cfg <= success_streak st + 1 /\
  new_state o =
    mkTargetState 0 (success_streak st + 1) true (outage_start st) /\
  exists started,
    outage_start st = Some started /\
    saved_event o =
      Some (Sink.mkOutageEvent t started nw (Clock.total_seconds (nw - started))) /\
    Disk.save_downtime_event
      (Sink.mkOutageEvent t started nw (Clock.total_seconds (nw - started))) fs =
    Disk.Raised e fs1.
Proof.
  destruct r as [okb lat]. unfold Loop.update_target.
  destruct okb.
  - destruct (outage st) eqn:Ho; simpl andb; [|discriminate].
    destruct (recovery_success_threshold cfg <=? success_streak st + 1) eqn:Hle;
      [|discriminate].
    apply Z.leb_le in Hle.
    destruct (outage_start st) as [s|] eqn:Hs; [|discriminate].
    destruct (Disk.save_downtime_event _ fs) as [fs2|e2 fs2] eqn:Hsave;
      [discriminate|].
    intros [= <- <- <-]. simpl. repeat split; try assumption.
    exists s. auto.
  - destruct (negb (outage st) && (loss_threshold cfg <=? fail_streak st + 1));
      discriminate.
Qed.

(** ** The recovery of an outage that began on 29 February *)

(** C2, where the code departs from it.  An outage is detected on
    2024-02-29 at 10:00:03 and the eleventh success in a row comes at
    10:00:14, so the count of consecutive successes reaches
    [recovery_success_threshold] on that tick.  The event is handed to
    [save_downtime_event], which writes it to the JSON file and then
    raises [ValueError] from the sort of the hour keys; the exception
    leaves [monitor] before the three assignments that reset the state:
    the target is still down, with [success_streak] at 11 and
    [outage_start] set, and no report is written.  The same holds of the
    whole loop over [TARGETS] when the other targets answer. *)
Theorem recovery_of_leap_day_outage_raises :
  consecutive_successes (map ok leap_day_outage) =
    recovery_success_threshold default_config /\
  exists w fs,
    Loop.run default_config 30 dns leap_day_outage Track_init empty_disk =
      Loop.RanIntoSave Disk.ValueError w fs /\
    outage (state w) = true /\
    success_streak (state w) = 11 /\
    outage_start (state w) = Some (at_second leap_day_10h 3) /\
    saved w = [outage_event leap_day_10h] /\
    Disk.events_json fs = Disk.Listed [Sink.new_event (outage_event leap_day_10h)] /\
    Disk.report_html fs = Disk.NoReport /\
    exists m,
      Loop.monitor default_config 30 Dashboard.TARGETS
        (map pass_of leap_day_outage) (Monitor_init Dashboard.TARGETS)
        empty_disk = Loop.SaveError Disk.ValueError m fs /\
      states m !! dns = Some (state w) /\
      sink m = saved w.
Proof.
  split; [vm_compute; reflexivity|].
  eexists. eexists. split; [vm_compute; reflexivity|].
  repeat split.
  eexists. split; [vm_compute; reflexivity|].
  split; vm_compute; reflexivity.
Qed.

(** The same outage one day earlier recovers as C2 says. *)
Example recovery_on_the_eve_is_performed :
  exists w fs,
    Loop.run default_config 30 dns eve_outage Track_init empty_disk =
      Loop.Ran w fs /\
    outage (state w) = false /\
    success_streak (state w) = 0 /\
    outage_start (state w) = None /\
    saved w = [outage_event (leap_day_10h - 86400)] /\
    Disk.report_html fs =
      Disk.ReportOf [Sink.new_event (outage_event (leap_day_10h - 86400))].
Proof.
  eexists. eexists. split; [vm_compute; reflexivity|]. repeat split.
Qed.

(** A JSON file that holds something else than a list stops the recovery
    before anything is written. *)
Example recovery_with_a_non_list_file_raises :
  exists w,
    Loop.run default_config 30 dns eve_outage Track_init
      (Disk.mkStore (Disk.NotAList true) Disk.Writes Disk.NoReport Disk.Writes
         false) =
      Loop.RanIntoSave Disk.AttributeError w
        (Disk.mkStore (Disk.NotAList true) Disk.Writes Disk.NoReport Disk.Writes
         false) /\
    outage (state w) = true.
Proof. eexists. split; [vm_compute; reflexivity | reflexivity]. Qed.

(** ** Which exceptions leave the loop *)

Section LoopExceptions.
Variables (cfg : Config) (width : nat) (targets : list string).

Lemma full_monitor_update_sound (nw : Clock.datetime) (m : Monitor)
    (fs : Disk.Store) (tr : string * ProbeResult) :
  entries_sound targets m -> In (fst tr) targets ->
  match Loop.monitor_update cfg width nw m fs tr with
  | Loop.Done m1 _ => entries_sound targets m1
  | Loop.SaveError _ _ _ => True
  | _ => False
  end.
Proof.
  intros Hm Hin. destruct tr as [t r]. simpl in Hin.
  destruct (Hm t Hin) as (st & h & Hst & Hh & Hwf).
  destruct (update_target_sound cfg t nw r st Hwf) as (o1 & Ho1 & Hwf1).
  unfold Loop.monitor_update. rewrite Hst, Hh.
  destruct (Loop.update_target cfg t nw r st fs) as [o fs1| |e o fs1] eqn:Hfull.
  - apply full_update_completed in Hfull.
    assert (o = o1) by congruence. subst o1.
    intros t1 Hin1. unfold Loop.record_outcome. simpl.
    destruct (decide (t = t1)) as [->|Hne].
    + rewrite !lookup_insert_eq. eauto.
    + rewrite !lookup_insert_ne by exact Hne. apply Hm, Hin1.
  - apply full_update_type_error in Hfull. congruence.
  - exact I.
Qed.

Lemma full_monitor_loop_sound (nw : Clock.datetime)
    (pairs : list (string * ProbeResult)) (m : Monitor) (fs : Disk.Store) :
  entries_sound targets m ->
  (forall tr, In tr pairs -> In (fst tr) targets) ->
  match Loop.monitor_loop cfg width nw pairs m fs with
  | Loop.Done m1 _ => entries_sound targets m1
  | Loop.SaveError _ _ _ => True
  | _ => False
  end.
Proof.
  revert m fs. induction pairs as [|tr pairs IH]; intros m fs Hm Hin; simpl.
  - exact Hm.
  - pose proof (full_monitor_update_sound nw m fs tr Hm
                  (Hin tr (or_introl eq_refl))) as Hup.
    destruct (Loop.monitor_update cfg width nw m fs tr) as [m1 fs1| | |e m1 fs1|m1 fs1];
      try contradiction; try exact I.
    apply IH; [exact Hup|]. intros tr1 Htr1. apply Hin. right. exact Htr1.
Qed.

Lemma full_monitor_pass_sound (p : Loop.Pass) (m : Monitor) (fs : Disk.Store) :
  entries_sound targets m ->
  match Loop.monitor_pass cfg width targets p m fs with
  | Loop.Done m1 _ => entries_sound targets m1
  | Loop.SaveError _ _ _ | Loop.KeyErrorInRender _ _ => True
  | Loop.KeyErrorInLoop | Loop.TypeErrorInLoop => False
  end.
Proof.
  intros Hm. unfold Loop.monitor_pass.
  pose proof (full_monitor_loop_sound (Loop.pass_now p)
                (combine targets (Loop.pass_results p)) m fs Hm) as Hloop.
  destruct (Loop.monitor_loop cfg width (Loop.pass_now p)
              (combine targets (Loop.pass_results p)) m fs)
    as [m1 fs1| | |e m1 fs1|m1 fs1].
  - destruct (snd (render_dashboard _ _ _ _)); [|exact I].
    apply Hloop. intros [t r] Hin. apply in_combine_l in Hin. exact Hin.
  - apply Hloop. intros [t r] Hin. apply in_combine_l in Hin. exact Hin.
  - apply Hloop. intros [t r] Hin. apply in_combine_l in Hin. exact Hin.
  - exact I.
  - exact I.
Qed.

(** X4: whatever the targets (repeated ones included), the passes and
    the files, the statements of the loop of [monitor] themselves never
    raise: no [KeyError] for a missing entry of [states] or [histories]
    and no [TypeError] from [now - None]; when the passes get to their
    end every listed target has its entry in both dictionaries.  The
    calls of [save_downtime_event] and [render_dashboard] can still end
    the loop with an exception of theirs. *)
Theorem loop_raises_only_in_save_or_render (passes : list Loop.Pass)
    (fs : Disk.Store) :
  match Loop.monitor cfg width targets passes (Monitor_init targets) fs with
  | Loop.Done m _ =>
      forall t, In t targets ->
        is_Some (states m !! t) /\ is_Some (histories m !! t)
  | Loop.SaveError _ _ _ | Loop.KeyErrorInRender _ _ => True
  | Loop.KeyErrorInLoop | Loop.TypeErrorInLoop => False
  end.
Proof.
  assert (Hgen : forall m0 fs0, entries_sound targets m0 ->
            match Loop.monitor cfg width targets passes m0 fs0 with
            | Loop.Done m _ => entries_sound targets m
            | Loop.SaveError _ _ _ | Loop.KeyErrorInRender _ _ => True
            | Loop.KeyErrorInLoop | Loop.TypeErrorInLoop => False
            end).
  { induction passes as [|p rest IH]; intros m0 fs0 Hm0; simpl.
    - exact Hm0.
    - pose proof (full_monitor_pass_sound p m0 fs0 Hm0) as Hpass.
      destruct (Loop.monitor_pass cfg width targets p m0 fs0)
        as [m1 fs1| | |e m1 fs1|m1 fs1]; try contradiction; try exact I.
      apply IH, Hpass. }
  specialize (Hgen _ fs (Monitor_init_sound targets)).
  destruct (Loop.monitor cfg width targets passes (Monitor_init targets) fs)
    as [m fs1| | |e m fs1|m fs1]; try contradiction; try exact I.
  intros t Hin. destruct (Hgen t Hin) as (st & h & Hst & Hh & _).
  rewrite Hst, Hh. split; eexists; reflexivity.
Qed.

End LoopExceptions.

(** ** One target inside the whole loop *)

Lemma full_monitor_update_done (cfg : Config) (width : nat) (nw : Clock.datetime)
    (m m1 : Monitor) (fs fs1 : Disk.Store) (tr : string * ProbeResult) :
  Loop.monitor_update cfg width nw m fs tr = Loop.Done m1 fs1 ->
  monitor_update cfg width nw m tr = Some m1.
Proof.
  destruct tr as [t r]. unfold Loop.monitor_update, monitor_update.
  destruct (states m !! t) as [st|]; [|discriminate].
  destruct (histories m !! t) as [h|]; [|discriminate].
  destruct (Loop.update_target cfg t nw r st fs) as [o fs2| |e o fs2] eqn:Hfull;
    try discriminate.
  apply full_update_completed in Hfull. rewrite Hfull.
  intros [= <- _]. reflexivity.
Qed.

Lemma full_monitor_loop_done (cfg : Config) (width : nat) (nw : Clock.datetime)
    (pairs : list (string * ProbeResult)) (m m1 : Monitor)
    (fs fs1 : Disk.Store) :
  Loop.monitor_loop cfg width nw pairs m fs = Loop.Done m1 fs1 ->
  monitor_loop cfg width nw pairs (Some m) = Some m1.
Proof.
  revert m fs. induction pairs as [|tr pairs IH]; intros m fs Hloop;
    simpl in Hloop.
  - injection Hloop as <- _. reflexivity.
  - destruct (Loop.monitor_update cfg width nw m fs tr) as [m2 fs2| | |e m2 fs2|m2 fs2]
      eqn:Hup; try discriminate.
    apply full_monitor_update_done in Hup.
    rewrite monitor_loop_cons, Hup. apply (IH m2 fs2 Hloop).
Qed.

Lemma full_monitor_done (cfg : Config) (width : nat) (targets : list string)
    (passes : list Loop.Pass) (m m1 : Monitor) (fs fs1 : Disk.Store) :
  Loop.monitor cfg width targets passes m fs = Loop.Done m1 fs1 ->
  monitor_passes cfg width targets (Loop.bare passes) m = Some m1.
Proof.
  revert m fs. induction passes as [|p rest IH]; intros m fs Hdone;
    simpl in Hdone.
  - injection Hdone as <- _. reflexivity.
  - unfold Loop.monitor_pass in Hdone.
    destruct (Loop.monitor_loop cfg width (Loop.pass_now p)
                (combine targets (Loop.pass_results p)) m fs)
      as [m2 fs2| | |e m2 fs2|m2 fs2] eqn:Hloop; try discriminate.
    apply full_monitor_loop_done in Hloop.
    destruct (snd (render_dashboard _ _ _ _)); [|discriminate].
    simpl. unfold monitor_tick. rewrite Hloop. apply (IH m2 fs2 Hdone).
Qed.

(** X24: when the passes of [monitor] get to their end, the state, the
    history and the events in the sink of every listed target are those
    the detector reaches for that target alone, fed with the target's own
    results in the order of the passes (a target listed twice has two
    results a pass); so what holds of every run of the detector from its
    initial state holds of every target of [monitor]. *)
Theorem monitor_is_per_target (cfg : Config) (width : nat)
    (targets : list string) (t : string) (passes : list Loop.Pass)
    (m : Monitor) (fs fs1 : Disk.Store) :
  Loop.monitor cfg width targets passes (Monitor_init targets) fs =
    Loop.Done m fs1 ->
  In t targets ->
  exists w,
    run cfg width t (all_own_ticks t targets (Loop.bare passes)) Track_init =
      Some w /\
    states m !! t = Some (state w) /\
    histories m !! t = Some (history w) /\
    events_for t (sink m) = saved w.
Proof.
  intros Hdone Hin.
  apply full_monitor_done in Hdone.
  destruct (Monitor_init_lookup targets t Hin) as [Hst Hh].
  apply (monitor_passes_per_target cfg width targets t (Loop.bare passes)
           (Monitor_init targets) m Track_init Hdone Hst Hh eq_refl).
Qed.

Lemma monitor_is_per_target_witness :
  exists m fs w,
    Loop.monitor default_config 30 Dashboard.TARGETS (map pass_of eve_outage)
      (Monitor_init Dashboard.TARGETS) empty_disk = Loop.Done m fs /\
    run default_config 30 dns
      (all_own_ticks dns Dashboard.TARGETS (Loop.bare (map pass_of eve_outage)))
      Track_init = Some w /\
    states m !! dns = Some (state w) /\
    histories m !! dns = Some (history w) /\
    events_for dns (sink m) = saved w.
Proof.
  assert (Hdone : exists m fs,
            Loop.monitor default_config 30 Dashboard.TARGETS
              (map pass_of eve_outage) (Monitor_init Dashboard.TARGETS)
              empty_disk = Loop.Done m fs)
    by (eexists; eexists; vm_compute; reflexivity).
  destruct Hdone as (m & fs & Hdone).
  destruct (monitor_is_per_target default_config 30 Dashboard.TARGETS dns
              (map pass_of eve_outage) m empty_disk fs Hdone
              (or_introl eq_refl)) as (w & Hw).
  exists m, fs, w. split; [exact Hdone | exact Hw].
Defined.

(** ** The two files *)

Ltac store_fields :=
  cbn [Disk.events_json Disk.json_fault Disk.report_html Disk.html_fault
       Disk.pads_year Disk.left_by app map].
Tactic Notation "store_fields" "in" hyp(H) :=
  cbn [Disk.events_json Disk.json_fault Disk.report_html Disk.html_fault
       Disk.pads_year Disk.left_by app map] in H.

Lemma timeline_sorts_app (pads : bool) (xs ys : list Sink.StoredEvent) :
  Disk.timeline_sorts pads (xs ++ ys) =
  Disk.timeline_sorts pads xs && Disk.timeline_sorts pads ys.
Proof. apply forallb_app. Qed.

Lemma write_json_pads (events : list Sink.StoredEvent) (fs : Disk.Store) :
  Disk.pads_year (Disk.write_json events fs) = Disk.pads_year fs.
Proof. unfold Disk.write_json. destruct (Disk.json_fault fs); reflexivity. Qed.

Lemma save_with_writable_files (e : Sink.OutageEvent) (fs : Disk.Store) :
  Disk.json_fault fs = Disk.Writes ->
  Disk.html_fault fs = Disk.Writes ->
  (forall b, Disk.events_json fs <> Disk.NotAList b) ->
  Disk.timeline_sorts (Disk.pads_year fs)
    (Disk.previous_events fs ++ [Sink.new_event e]) = true ->
  Disk.save_downtime_event e fs =
    Disk.Returned
      (Disk.mkStore
         (Disk.Listed (Disk.previous_events fs ++ [Sink.new_event e]))
         Disk.Writes
         (Disk.ReportOf (Disk.previous_events fs ++ [Sink.new_event e]))
         Disk.Writes (Disk.pads_year fs)).
Proof.
  intros Hj Hh Hlist Hsorts.
  unfold Disk.save_downtime_event, Disk.previous_events in *.
  destruct (Disk.events_json fs) as [| |b|evs] eqn:Hc.
  - unfold Disk.generate_html_report. store_fields in Hsorts.
    rewrite write_json_pads, Hsorts.
    unfold Disk.write_html, Disk.write_json. rewrite Hj. store_fields. rewrite Hh.
    reflexivity.
  - unfold Disk.generate_html_report. store_fields in Hsorts.
    rewrite write_json_pads, Hsorts.
    unfold Disk.write_html, Disk.write_json. rewrite Hj. store_fields. rewrite Hh.
    reflexivity.
  - exfalso. apply (Hlist b). reflexivity.
  - unfold Disk.generate_html_report. rewrite write_json_pads, Hsorts.
    unfold Disk.write_html, Disk.write_json. rewrite Hj. store_fields. rewrite Hh.
    reflexivity.
Qed.

Lemma save_all_with_writable_files (events : list Sink.OutageEvent) :
  forall fs,
    Disk.json_fault fs = Disk.Writes ->
    Disk.html_fault fs = Disk.Writes ->
    (forall b, Disk.events_json fs <> Disk.NotAList b) ->
    Disk.timeline_sorts (Disk.pads_year fs)
      (Disk.previous_events fs ++ map Sink.new_event events) = true ->
    exists fs1,
      Disk.save_all events fs = Disk.Returned fs1 /\
      Disk.previous_events fs1 =
        Disk.previous_events fs ++ map Sink.new_event events /\
      Disk.json_fault fs1 = Disk.Writes /\
      Disk.html_fault fs1 = Disk.Writes /\
      Disk.pads_year fs1 = Disk.pads_year fs /\
      (forall b, Disk.events_json fs1 <> Disk.NotAList b) /\
      (events <> [] ->
       Disk.events_json fs1 =
         Disk.Listed (Disk.previous_events fs ++ map Sink.new_event events) /\
       Disk.report_html fs1 =
         Disk.ReportOf (Disk.previous_events fs ++ map Sink.new_event events)).
Proof.
  induction events as [|e rest IH]; intros fs Hj Hh Hlist Hsorts.
  - exists fs. cbn [Disk.save_all map]. rewrite app_nil_r.
    repeat split; try assumption; try reflexivity; contradiction.
  - store_fields in Hsorts.
    assert (Hfirst : Disk.timeline_sorts (Disk.pads_year fs)
                       (Disk.previous_events fs ++ [Sink.new_event e]) = true).
    { change (Sink.new_event e :: map Sink.new_event rest)
        with ([Sink.new_event e] ++ map Sink.new_event rest) in Hsorts.
      rewrite app_assoc, timeline_sorts_app in Hsorts.
      apply andb_true_iff in Hsorts. apply Hsorts. }
    cbn [Disk.save_all]. rewrite (save_with_writable_files e fs Hj Hh Hlist Hfirst).
    set (fs1 := Disk.mkStore _ _ _ _ _).
    assert (Hprev : Disk.previous_events fs1 =
                      Disk.previous_events fs ++ [Sink.new_event e])
      by reflexivity.
    destruct (IH fs1 eq_refl eq_refl) as (fs2 & Hall & Hp2 & Hj2 & Hh2 & Hy2 & Hl2 & Hrep).
    + intros b. discriminate.
    + rewrite Hprev, <- app_assoc. exact Hsorts.
    + exists fs2. rewrite Hprev, <- app_assoc in Hp2. store_fields in Hp2.
      repeat split; try assumption.
      * destruct rest as [|e1 rest1].
        -- cbn [Disk.save_all] in Hall. injection Hall as <-. reflexivity.
        -- destruct Hrep as [Hrep _]; [discriminate|].
           rewrite Hrep, Hprev, <- app_assoc. reflexivity.
      * destruct rest as [|e1 rest1].
        -- cbn [Disk.save_all] in Hall. injection Hall as <-. reflexivity.
        -- destruct Hrep as [_ Hrep]; [discriminate|].
           rewrite Hrep, Hprev, <- app_assoc. reflexivity.
Qed.

(** X13: with both files writable, a JSON file that is absent,
    unreadable or a list of events, and no event (stored or new) that
    starts on a 29 February, saving one event after the other returns
    every time and leaves in [downtime_events.json] the events that were
    there followed by the new ones in the order of the calls, and in
    [downtime_report.html] the report of that whole list. *)
Theorem saves_accumulate (events : list Sink.OutageEvent) (fs : Disk.Store) :
  Disk.json_fault fs = Disk.Writes ->
  Disk.html_fault fs = Disk.Writes ->
  (forall b, Disk.events_json fs <> Disk.NotAList b) ->
  events <> [] ->
  Disk.timeline_sorts (Disk.pads_year fs)
    (Disk.previous_events fs ++ map Sink.new_event events) = true ->
  exists fs1,
    Disk.save_all events fs = Disk.Returned fs1 /\
    Disk.events_json fs1 =
      Disk.Listed (Disk.previous_events fs ++ map Sink.new_event events) /\
    Disk.report_html fs1 =
      Disk.ReportOf (Disk.previous_events fs ++ map Sink.new_event events).
Proof.
  intros Hj Hh Hlist Hne Hsorts.
  destruct (save_all_with_writable_files events fs Hj Hh Hlist Hsorts)
    as (fs1 & Hall & _ & _ & _ & _ & _ & Hrep).
  exists fs1. split; [exact Hall | exact (Hrep Hne)].
Qed.

Lemma saves_accumulate_witness :
  exists fs1,
    Disk.save_all [Samples.first_outage; Samples.second_outage] empty_disk =
      Disk.Returned fs1 /\
    Disk.events_json fs1 =
      Disk.Listed [Sink.new_event Samples.first_outage;
                   Sink.new_event Samples.second_outage] /\
    Disk.report_html fs1 =
      Disk.ReportOf [Sink.new_event Samples.first_outage;
                     Sink.new_event Samples.second_outage].
Proof.
  apply (saves_accumulate [Samples.first_outage; Samples.second_outage]
           empty_disk).
  - reflexivity.
  - reflexivity.
  - intros b. discriminate.
  - discriminate.
  - vm_compute. reflexivity.
Defined.

(** X15: when [downtime_events.json] holds a list but cannot be opened
    for writing, a save whose report goes through leaves the file as it
    was and writes a report that also shows the new event; the event is
    in no file, and [regenerate] then writes the report of the stored
    list, without it. *)
Theorem unwritable_json_loses_the_event (e : Sink.OutageEvent)
    (events : list Sink.StoredEvent) (fs : Disk.Store) :
  Disk.events_json fs = Disk.Listed events ->
  Disk.json_fault fs = Disk.OpenFails ->
  Disk.html_fault fs = Disk.Writes ->
  Disk.timeline_sorts (Disk.pads_year fs) (events ++ [Sink.new_event e]) = true ->
  exists fs1,
    Disk.save_downtime_event e fs = Disk.Returned fs1 /\
    Disk.events_json fs1 = Disk.Listed events /\
    Disk.report_html fs1 = Disk.ReportOf (events ++ [Sink.new_event e]) /\
    Disk.report_html (Disk.regenerate fs1) = Disk.ReportOf events.
Proof.
  intros Hc Hj Hh Hsorts.
  pose proof Hsorts as Hboth. rewrite timeline_sorts_app in Hboth.
  apply andb_true_iff in Hboth. destruct Hboth as [Hold _].
  unfold Disk.save_downtime_event. rewrite Hc.
  unfold Disk.generate_html_report. rewrite write_json_pads, Hsorts.
  unfold Disk.write_json. rewrite Hj.
  unfold Disk.write_html. rewrite Hh.
  eexists. split; [reflexivity|]. store_fields.
  split; [exact Hc|]. split; [reflexivity|].
  unfold Disk.regenerate. store_fields. rewrite Hc.
  unfold Disk.generate_html_report. store_fields. rewrite Hold.
  unfold Disk.write_html. store_fields. rewrite ?Hh. reflexivity.
Qed.

Lemma unwritable_json_loses_the_event_witness :
  exists fs1,
    Disk.save_downtime_event Samples.second_outage read_only_disk =
      Disk.Returned fs1 /\
    Disk.events_json fs1 = Disk.Listed [Sink.new_event Samples.first_outage] /\
    Disk.report_html fs1 =
      Disk.ReportOf [Sink.new_event Samples.first_outage;
                     Sink.new_event Samples.second_outage] /\
    Disk.report_html (Disk.regenerate fs1) =
      Disk.ReportOf [Sink.new_event Samples.first_outage].
Proof.
  apply (unwritable_json_loses_the_event Samples.second_outage
           [Sink.new_event Samples.first_outage] read_only_disk).
  - reflexivity.
  - reflexivity.
  - reflexivity.
  - vm_compute. reflexivity.
Defined.

(** X25: once [downtime_events.json] lists an event that starts on a
    29 February that [strptime] reads back (any such day from the year
    1000 on), every later call of
    [save_downtime_event] raises [ValueError], whatever the event: the
    report is not rewritten, a writable JSON file still receives the
    event, and the next call raises again; [regenerate] writes
    nothing. *)
Theorem leap_day_event_stops_every_report (x : Sink.StoredEvent)
    (events : list Sink.StoredEvent) (e : Sink.OutageEvent) (fs : Disk.Store) :
  Disk.events_json fs = Disk.Listed events ->
  In x events ->
  Calendar.reads_back (Disk.pads_year fs) (Sink.start x) = true ->
  Calendar.strptime_accepts (Calendar.hour_key (Sink.start x)) = false ->
  exists fs1,
    Disk.save_downtime_event e fs = Disk.Raised Disk.ValueError fs1 /\
    Disk.report_html fs1 = Disk.report_html fs /\
    (Disk.json_fault fs = Disk.Writes ->
     Disk.events_json fs1 = Disk.Listed (events ++ [Sink.new_event e]) /\
     forall e1, exists fs2,
       Disk.save_downtime_event e1 fs1 = Disk.Raised Disk.ValueError fs2) /\
    Disk.regenerate fs = fs.
Proof.
  intros Hc Hin Hread Hrej.
  assert (Hpoison : forall more,
            Disk.timeline_sorts (Disk.pads_year fs) (events ++ more) = false).
  { intros more. rewrite timeline_sorts_app.
    apply andb_false_iff. left.
    unfold Disk.timeline_sorts.
    destruct (forallb _ events) eqn:Hall; [|reflexivity].
    rewrite forallb_forall in Hall. specialize (Hall x Hin).
    rewrite Hread, Hrej in Hall. discriminate. }
  unfold Disk.save_downtime_event. rewrite Hc.
  unfold Disk.generate_html_report. rewrite write_json_pads, Hpoison.
  eexists. split; [reflexivity|].
  split; [|split].
  - unfold Disk.write_json. destruct (Disk.json_fault fs); reflexivity.
  - intros Hj. unfold Disk.write_json. rewrite Hj. store_fields.
    split; [reflexivity|]. intros e1.
    unfold Disk.save_downtime_event. store_fields.
    unfold Disk.generate_html_report. rewrite ?write_json_pads. store_fields.
    rewrite <- app_assoc, Hpoison.
    eexists. reflexivity.
  - unfold Disk.regenerate. rewrite Hc.
    unfold Disk.generate_html_report.
    rewrite <- (app_nil_r events), Hpoison. reflexivity.
Qed.

Lemma leap_day_event_stops_every_report_witness :
  exists fs1,
    Disk.save_downtime_event Samples.second_outage leap_day_disk =
      Disk.Raised Disk.ValueError fs1 /\
    Disk.report_html fs1 = Disk.NoReport /\
    (Disk.json_fault leap_day_disk = Disk.Writes ->
     Disk.events_json fs1 =
       Disk.Listed [Sink.new_event (outage_event leap_day_10h);
                    Sink.new_event Samples.second_outage] /\
     forall e1, exists fs2,
       Disk.save_downtime_event e1 fs1 = Disk.Raised Disk.ValueError fs2) /\
    Disk.regenerate leap_day_disk = leap_day_disk.
Proof.
  apply (leap_day_event_stops_every_report
           (Sink.new_event (outage_event leap_day_10h))
           [Sink.new_event (outage_event leap_day_10h)]
           Samples.second_outage leap_day_disk).
  - reflexivity.
  - left. reflexivity.
  - vm_compute. reflexivity.
  - vm_compute. reflexivity.
Defined.

(** X26: when the write of [downtime_events.json] fails after the file
    was opened, the events stored before are gone with the new one: the
    file no longer parses, whether the call then returns or raises, and
    the next save that gets to write stores its own event alone. *)
Theorem failed_write_loses_stored_events (e e1 : Sink.OutageEvent)
    (events : list Sink.StoredEvent) (fs : Disk.Store) :
  Disk.events_json fs = Disk.Listed events ->
  Disk.json_fault fs = Disk.WriteFails ->
  Disk.events_json (Disk.left_by (Disk.save_downtime_event e fs)) =
    Disk.Garbled /\
  Disk.events_json
    (Disk.left_by
       (Disk.save_downtime_event e1
          (Disk.with_json_fault Disk.Writes
             (Disk.left_by (Disk.save_downtime_event e fs))))) =
    Disk.Listed [Sink.new_event e1].
Proof.
  intros Hc Hj.
  assert (Hleft : forall evs fs0,
            Disk.events_json
              (Disk.left_by (Disk.generate_html_report evs fs0)) =
            Disk.events_json fs0).
  { intros evs fs0. unfold Disk.generate_html_report, Disk.write_html.
    destruct (Disk.timeline_sorts _ evs); [|reflexivity].
    destruct (Disk.html_fault fs0); reflexivity. }
  assert (Hfirst : Disk.events_json
                     (Disk.left_by (Disk.save_downtime_event e fs)) =
                   Disk.Garbled).
  { unfold Disk.save_downtime_event. rewrite Hc, Hleft.
    unfold Disk.write_json. rewrite Hj. reflexivity. }
  split; [exact Hfirst|].
  unfold Disk.save_downtime_event at 1.
  unfold Disk.with_json_fault at 1. cbn [Disk.events_json].
  rewrite Hfirst, Hleft. reflexivity.
Qed.

Lemma failed_write_loses_stored_events_witness :
  Disk.events_json
    (Disk.left_by (Disk.save_downtime_event Samples.second_outage full_disk)) =
    Disk.Garbled /\
  Disk.events_json
    (Disk.left_by
       (Disk.save_downtime_event (outage_event 0)
          (Disk.with_json_fault Disk.Writes
             (Disk.left_by
                (Disk.save_downtime_event Samples.second_outage full_disk))))) =
    Disk.Listed [Sink.new_event (outage_event 0)].
Proof.
  apply (failed_write_loses_stored_events Samples.second_outage
           (outage_event 0) [Sink.new_event Samples.first_outage] full_disk).
  - reflexivity.
  - reflexivity.
Defined.
